(** * CortexAI: the Tally data-access layer and the tool-orchestration loop

    A shallow embedding of [tally_mcp.py], [snapshot.py],
    [orchestrator.py] and the message handlers of [telegram_bot.py], and
    the properties their design document states about them.

    Conventions of the embedding.
    - A Python [str] is the list of its Unicode code points ([list N]);
      literals are written as UTF-8 Rocq strings and decoded by [py].
    - A Python exception is a value of [exn]; code that may raise returns
      [Res A]; [try ... except] is a [match] on that result.
    - Module-level and on-disk state (the snapshot directory, the
      [_tally_is_alive] flag, the per-user history dictionary) is passed
      explicitly.
    - Library code the repository calls but does not define (the XML parser
      behind [ET.fromstring], [float], the Unicode table behind [\w], the
      language model and the MCP transport) is a parameter of the functions
      that use it. *)

From Stdlib Require Import ZArith NArith QArith Qabs String Ascii List Bool Lia.
From Stdlib Require Import Sorted.
From stdpp Require Import gmap list.

Set Default Proof Using "Type".
Local Open Scope N_scope.

(** ** Python strings *)

Module PyStr.

Abbreviation char := N (only parsing).
Abbreviation str := (list N) (only parsing).

Fixpoint bytes_of (s : string) : list N :=
  match s with
  | EmptyString => []
  | String c s' => N_of_ascii c :: bytes_of s'
  end.

(** UTF-8 decoding of a well-formed byte sequence (the encoding of this
    file, hence of every literal below). *)
Fixpoint utf8_decode (bs : list N) : str :=
  match bs with
  | [] => []
  | b :: rest =>
    if b <? 128 then b :: utf8_decode rest
    else if b <? 224 then
      match rest with
      | b1 :: r => ((b - 192) * 64 + (b1 - 128)) :: utf8_decode r
      | _ => []
      end
    else if b <? 240 then
      match rest with
      | b1 :: b2 :: r =>
          ((b - 224) * 4096 + (b1 - 128) * 64 + (b2 - 128)) :: utf8_decode r
      | _ => []
      end
    else
      match rest with
      | b1 :: b2 :: b3 :: r =>
          ((b - 240) * 262144 + (b1 - 128) * 4096 + (b2 - 128) * 64 + (b3 - 128))
            :: utf8_decode r
      | _ => []
      end
  end.

Definition py (s : string) : str := utf8_decode (bytes_of s).
Arguments py : simpl never.

(** [c in lo..hi] on code points. *)
Definition between (lo hi : N) (c : char) : bool := (lo <=? c) && (c <=? hi).

(** [str.isspace] on one character, which is also the class [\s] of [re] on
    [str] patterns: the code points Python's Unicode database marks as
    whitespace. *)
Definition isspace (c : char) : bool :=
  between 9 13 c || between 28 32 c || (c =? 133) || (c =? 160)
  || (c =? 5760) || between 8192 8202 c || (c =? 8232) || (c =? 8233)
  || (c =? 8239) || (c =? 8287) || (c =? 12288).

Definition str_eqb (a b : str) : bool := bool_decide (a = b).

(** Truth value of a [str]: non-empty. *)
Definition nonempty (s : str) : bool :=
  match s with [] => false | _ :: _ => true end.

(** Truth value of an attribute that may be [None]. *)
Definition truthy (o : option str) : bool :=
  match o with Some s => nonempty s | None => false end.

Fixpoint lstrip (s : str) : str :=
  match s with
  | c :: s' => if isspace c then lstrip s' else s
  | [] => []
  end.

Definition rstrip (s : str) : str := rev (lstrip (rev s)).

(** [s.strip()] *)
Definition strip (s : str) : str := rstrip (lstrip s).

Fixpoint startswith (p s : str) : bool :=
  match p, s with
  | [], _ => true
  | a :: p', b :: s' => (a =? b) && startswith p' s'
  | _ :: _, [] => false
  end.

(** [p in s] *)
Fixpoint contains (p s : str) : bool :=
  startswith p s || match s with [] => false | _ :: s' => contains p s' end.

(** [sep.join(parts)] *)
Fixpoint join (sep : str) (parts : list str) : str :=
  match parts with
  | [] => []
  | [x] => x
  | x :: rest => x ++ sep ++ join sep rest
  end.

(** The line feed and the double quote. *)
Definition nl : str := [10].
Definition dq : str := [34].

(** Decimal digits of a natural number, most significant first. *)
Fixpoint digits_fuel (fuel : nat) (n : N) (acc : str) : str :=
  match fuel with
  | O => acc
  | S f =>
    let acc' := (48 + n mod 10) :: acc in
    if n <? 10 then acc' else digits_fuel f (n / 10) acc'
  end.

Definition str_of_N (n : N) : str := digits_fuel (S (N.to_nat (N.log2 n))) n [].

(** [str(i)] for an [int]. *)
Definition str_of_Z (z : Z) : str :=
  match z with
  | Zneg p => 45 :: str_of_N (Npos p)
  | _ => str_of_N (Z.to_N z)
  end.

End PyStr.
Export PyStr.

(** ** The fragment of [re] the repository uses

    A backtracking matcher in continuation-passing style, with Python's
    priorities: alternatives left to right, greedy repetition longest
    first, lazy repetition shortest first. *)

Module Re.

Inductive regex : Type :=
| Lit (c : char)
| Cls (p : char -> bool)
| Seq (r1 r2 : regex)
| Alt (r1 r2 : regex)
| Star (p : char -> bool)
| LazyStar (p : char -> bool)
| Group (r : regex).

Definition Plus (p : char -> bool) : regex := Seq (Cls p) (Star p).

Fixpoint lits (s : str) (k : regex) : regex :=
  match s with
  | [] => k
  | c :: s' => Seq (Lit c) (lits s' k)
  end.

Section Matcher.
Context {R : Type}.

Fixpoint star_greedy (p : char -> bool) (s : str) (k : str -> option R) : option R :=
  match s with
  | c :: s' =>
    if p c then
      match star_greedy p s' k with
      | Some r => Some r
      | None => k s
      end
    else k s
  | [] => k []
  end.

Fixpoint star_lazy (p : char -> bool) (s : str) (k : str -> option R) : option R :=
  match k s with
  | Some r => Some r
  | None =>
    match s with
    | c :: s' => if p c then star_lazy p s' k else None
    | [] => None
    end
  end.

(** [m r s caps k]: match [r] at the head of [s], then continue with [k]
    on the rest; [caps] collects the text of the groups closed so far. *)
Fixpoint m (r : regex) (s : str) (caps : list str)
    (k : str -> list str -> option R) : option R :=
  match r with
  | Lit c =>
    match s with
    | x :: s' => if x =? c then k s' caps else None
    | [] => None
    end
  | Cls p =>
    match s with
    | x :: s' => if p x then k s' caps else None
    | [] => None
    end
  | Seq a b => m a s caps (fun s' caps' => m b s' caps' k)
  | Alt a b =>
    match m a s caps k with
    | Some r => Some r
    | None => m b s caps k
    end
  | Star p => star_greedy p s (fun s' => k s' caps)
  | LazyStar p => star_lazy p s (fun s' => k s' caps)
  | Group a =>
    m a s caps
      (fun s' caps' => k s' (caps' ++ [take (length s - length s') s]))
  end.
End Matcher.

(** [pattern.match(s)]: the length of the match at the head of [s] and its
    groups. *)
Definition re_match (r : regex) (s : str) : option (nat * list str) :=
  m r s [] (fun s' caps => Some ((length s - length s')%nat, caps)).

(** The length of the match at the head of [s]. *)
Definition match_len (r : regex) (s : str) : option nat := fst <$> re_match r s.

(** [pattern.search(s)]: the groups of the leftmost match. *)
Fixpoint search (r : regex) (s : str) : option (list str) :=
  match re_match r s with
  | Some (_, caps) => Some caps
  | None =>
    match s with
    | [] => None
    | _ :: s' => search r s'
    end
  end.

(** [pattern.sub('', s)]: the scan copies a character where no match
    starts and jumps over a match where one does; [skip] counts the
    characters of the current match still to jump over. *)
Fixpoint sub_from (r : regex) (skip : nat) (s : str) : str :=
  match s with
  | [] => []
  | c :: s' =>
    match skip with
    | S n => sub_from r n s'
    | O =>
      match re_match r s with
      | Some (S n, _) => sub_from r n s'
      | _ => c :: sub_from r O s'
      end
    end
  end.

Definition sub_empty (r : regex) (s : str) : str := sub_from r O s.

(** [pattern.finditer(s)]: the groups of the successive non-overlapping
    matches. *)
Fixpoint finditer_from (r : regex) (skip : nat) (s : str) : list (list str) :=
  match s with
  | [] => []
  | _ :: s' =>
    match skip with
    | S n => finditer_from r n s'
    | O =>
      match re_match r s with
      | Some (S n, caps) => caps :: finditer_from r n s'
      | _ => finditer_from r O s'
      end
    end
  end.

Definition finditer (r : regex) (s : str) : list (list str) := finditer_from r O s.

End Re.
Export Re.

(** ** Exceptions *)

Module Py.

(** The exception classes that occur; all are subclasses of [Exception]. *)
Inductive exn : Type :=
| ValueError
| ParseError
| ConnectionError (msg : str)
| OtherError (msg : str).

Inductive Res (A : Type) : Type :=
| Ok (a : A)
| Raise (e : exn).
Arguments Ok {A} a.
Arguments Raise {A} e.

#[export] Instance res_ret : MRet Res := λ A a, Ok a.
#[export] Instance res_bind : MBind Res := λ A B f r,
  match r with
  | Ok a => f a
  | Raise e => Raise e
  end.

End Py.
Export Py.

(** ** [xml.etree.ElementTree]: the element tree and its accessors

    [tail] is left out: no function of the repository reads it. *)

Module ET.

#[warnings="-register-all"]
Inductive Element : Type :=
| Elem (tag : str) (attrib : list (str * str)) (text : option str)
       (children : list Element).

Definition tag (e : Element) : str := let 'Elem t _ _ _ := e in t.
Definition attrib (e : Element) : list (str * str) := let 'Elem _ a _ _ := e in a.
Definition text (e : Element) : option str := let 'Elem _ _ x _ := e in x.
Definition children (e : Element) : list Element := let 'Elem _ _ _ c := e in c.

(** [e.get(key)] *)
Definition get (e : Element) (key : str) : option str :=
  snd <$> List.find (λ kv, str_eqb (fst kv) key) (attrib e).

(** [e.iter(t)]: [e] and its descendants with tag [t], in document order. *)
Fixpoint iter (e : Element) (t : str) : list Element :=
  match e with
  | Elem t' _ _ cs =>
    (if str_eqb t' t then [e] else []) ++ concat (map (λ c, iter c t) cs)
  end.

(** [e.find(t)] for a plain tag [t]: the first child with that tag. *)
Definition find (e : Element) (t : str) : option Element :=
  List.find (λ c, str_eqb (tag c) t) (children e).

(** [e.findtext(t, default)] *)
Definition findtext (e : Element) (t : str) (default : str) : str :=
  match find e t with
  | None => default
  | Some c => match text c with Some x => x | None => [] end
  end.

End ET.
Export ET.

(** ** [float]

    The operations of Python's [float] the repository uses. The laws are
    those the proofs need; IEEE 754 binary64 satisfies them, NaN included
    (no comparison with NaN holds). *)

Class PyFloat : Type := {
  F : Type;
  (** [float(s)]; [None] stands for [ValueError], the only exception it
      raises on a [str]. *)
  parse_float : str → option F;
  fzero : F;                       (* [0.0] *)
  fabs : F → F;                    (* [abs(x)] *)
  fadd : F → F → F;                (* [x + y] *)
  flt : F → F → bool;              (* [x < y] *)
  feqb : F → F → bool;             (* [x == y] *)
  fmt_comma_2f : F → str;          (* [format(x, ",.2f")] *)
  flt_zero_zero : flt fzero fzero = false;
  fabs_not_neg x : flt (fabs x) fzero = false;
  fadd_not_neg x y :
    flt x fzero = false → flt y fzero = false → flt (fadd x y) fzero = false
}.

Definition float `{PyFloat} (s : str) : Res F :=
  match parse_float s with
  | Some x => Ok x
  | None => Raise ValueError
  end.

(** ** [tally_mcp.py]: XML sanitization *)

Module Sanitizer.

Definition digit (lo hi : N) : regex := Cls (between (48 + lo) (48 + hi)).

(** [r'&#([0-8]|1[0-1]|1[4-9]|2[0-9]|3[01]);'] *)
Definition _ILLEGAL_XML_CHARS : regex :=
  lits (py "&#")
    (Seq (Group
            (Alt (digit 0 8)
            (Alt (Seq (Lit 49) (digit 0 1))
            (Alt (Seq (Lit 49) (digit 4 9))
            (Alt (Seq (Lit 50) (digit 0 9))
                 (Seq (Lit 51) (digit 0 1)))))))
         (Lit 59)).

(** The class [[\x00-\x08\x0b\x0c\x0e-\x1f]]. *)
Definition illegal_raw (c : char) : bool :=
  between 0 8 c || (c =? 11) || (c =? 12) || between 14 31 c.

Definition _ILLEGAL_RAW_CHARS : regex := Cls illegal_raw.

Definition _clean_xml (raw : str) : str :=
  let raw := sub_empty _ILLEGAL_XML_CHARS raw in
  let raw := sub_empty _ILLEGAL_RAW_CHARS raw in
  raw.

(** The pattern [&#[0-9][0-9]?;]: a decimal character reference of one or
    two digits, used to delimit where a second sanitization is a no-op. *)
Definition short_dec_ref : regex :=
  lits (py "&#")
    (Seq (digit 0 9) (Alt (Lit 59) (Seq (digit 0 9) (Lit 59)))).

(** The control points the design document lists as illegal to reference,
    0-8, 11 and 14-31, and the decimal reference [&#n;] to one. *)
Definition control_point (n : N) : bool := (n <=? 8) || (n =? 11) || between 14 31 n.
Definition control_ref (n : N) : str := py "&#" ++ str_of_N n ++ py ";".

End Sanitizer.
Export Sanitizer.

(** ** A decimal model of [float]

    Finite values are exact rationals; the two infinities and NaN are kept
    apart. What binary64 adds, rounding to 53 bits and overflow, is not
    represented; the digits read are the ASCII ones. *)

Module Decimal.

Inductive dfloat : Type :=
| Fin (q : Q)
| Inf (negative : bool)
| NaN.

Definition isdigit (c : char) : bool := between 48 57 c.

(** ASCII lower case. *)
Definition lower (c : char) : char := if between 65 90 c then c + 32 else c.

(** The rest of a [digitpart], [digit (["_"] digit)*], after its first
    digit: the digits read and what follows them. *)
Fixpoint digits_run (s : str) (acc : list N) : list N * str :=
  match s with
  | c :: s' =>
    if isdigit c then digits_run s' (acc ++ [c - 48])
    else if c =? 95 then
      match s' with
      | d :: s'' =>
        if isdigit d then digits_run s'' (acc ++ [d - 48]) else (acc, s)
      | [] => (acc, s)
      end
    else (acc, s)
  | [] => (acc, [])
  end.

(** An optional [digitpart]. *)
Definition digitpart (s : str) : list N * str :=
  match s with
  | c :: s' => if isdigit c then digits_run s' [c - 48] else ([], s)
  | [] => ([], [])
  end.

Definition digits_value (ds : list N) : Z :=
  fold_left (λ a d, 10 * a + Z.of_N d)%Z ds 0%Z.

(** [mant * 10^e] *)
Definition scale10 (mant e : Z) : Q :=
  if (0 <=? e)%Z then inject_Z (mant * 10 ^ e)
  else Qred (mant # Z.to_pos (10 ^ (- e))).

Definition sign_of (s : str) : bool * str :=
  match s with
  | c :: s' => if c =? 45 then (true, s') else if c =? 43 then (false, s') else (false, s)
  | [] => (false, [])
  end.

(** [exponent ::= ("e" | "E") [sign] digitpart], or nothing; [None] when
    what is left is neither. *)
Definition exponent (s : str) : option Z :=
  match s with
  | [] => Some 0%Z
  | c :: s' =>
    if (c =? 101) || (c =? 69) then
      let '(neg, s'') := sign_of s' in
      match digitpart s'' with
      | ((_ :: _) as ds, []) =>
        Some (if neg then - digits_value ds else digits_value ds)%Z
      | _ => None
      end
    else None
  end.

(** [floatnumber ::= ([digitpart] "." digitpart | digitpart ["."]) [exponent]] *)
Definition floatnumber (s : str) : option Q :=
  let '(ip, s1) := digitpart s in
  let '(fp, s2) :=
    match s1 with
    | c :: s1' => if c =? 46 then digitpart s1' else ([], s1)
    | [] => ([], [])
    end in
  match ip ++ fp with
  | [] => None
  | ds =>
    e ← exponent s2;
    Some (scale10 (digits_value ds) (e - Z.of_nat (length fp)))
  end.

(** The whitespace [float] skips at both ends of its argument: that of
    [str.isspace] without the separators U+001C to U+001F. *)
Definition float_space (c : char) : bool := isspace c && negb (between 28 31 c).

Fixpoint float_lstrip (s : str) : str :=
  match s with
  | c :: s' => if float_space c then float_lstrip s' else s
  | [] => []
  end.

Definition float_strip (s : str) : str :=
  rev (float_lstrip (rev (float_lstrip s))).

Definition dparse (s : str) : option dfloat :=
  let '(neg, body) := sign_of (float_strip s) in
  let word := map lower body in
  if str_eqb word (py "inf") || str_eqb word (py "infinity") then Some (Inf neg)
  else if str_eqb word (py "nan") then Some NaN
  else q ← floatnumber body; Some (Fin (if neg then Qred (- q) else q)).

Definition dabs (x : dfloat) : dfloat :=
  match x with
  | Fin q => Fin (Qabs q)
  | Inf _ => Inf false
  | NaN => NaN
  end.

Definition dadd (x y : dfloat) : dfloat :=
  match x, y with
  | Fin a, Fin b => Fin (Qred (a + b))
  | NaN, _ | _, NaN => NaN
  | Inf a, Inf b => if eqb a b then Inf a else NaN
  | Inf a, Fin _ | Fin _, Inf a => Inf a
  end.

Definition dlt (x y : dfloat) : bool :=
  match x, y with
  | Fin a, Fin b => negb (Qle_bool b a)
  | NaN, _ | _, NaN => false
  | Inf a, Inf b => a && negb b
  | Inf a, Fin _ => a
  | Fin _, Inf b => negb b
  end.

Definition deqb (x y : dfloat) : bool :=
  match x, y with
  | Fin a, Fin b => Qeq_bool a b
  | Inf a, Inf b => eqb a b
  | _, _ => false
  end.

(** Nearest integer, ties to even, of a non-negative rational. *)
Definition round_half_even (q : Q) : Z :=
  let n := Qnum q in
  let d := Zpos (Qden q) in
  let fl := (n / d)%Z in
  let r := (n mod d)%Z in
  match (2 * r ?= d)%Z with
  | Lt => fl
  | Gt => (fl + 1)%Z
  | Eq => if Z.even fl then fl else (fl + 1)%Z
  end.

(** Inserts [","] between groups of three, on reversed digits. *)
Fixpoint commas (rev_digits : str) (k : nat) : str :=
  match rev_digits with
  | [] => []
  | d :: ds =>
    match k with
    | O => 44 :: d :: commas ds 2
    | S k' => d :: commas ds k'
    end
  end.

Definition two_digits (n : Z) : str :=
  [48 + Z.to_N (n / 10); 48 + Z.to_N (n mod 10)].

(** [format(x, ",.2f")] *)
Definition dfmt_comma_2f (x : dfloat) : str :=
  match x with
  | NaN => py "nan"
  | Inf neg => if neg then py "-inf" else py "inf"
  | Fin q =>
    let cents := round_half_even (Qabs q * 100) in
    let whole := rev (commas (rev (str_of_Z (cents / 100))) 3) in
    (if Qle_bool 0 q then [] else py "-") ++ whole ++ py "." ++ two_digits (cents mod 100)
  end.

(** The decimal model is a model of [float]. *)
#[export] Instance decimal_float : PyFloat.
Proof.
  refine {|
    F := dfloat;
    parse_float := dparse;
    fzero := Fin 0;
    fabs := dabs;
    fadd := dadd;
    flt := dlt;
    feqb := deqb;
    fmt_comma_2f := dfmt_comma_2f;
    flt_zero_zero := eq_refl
  |}.
  - abstract (intros [q|?|]; simpl; [|done..];
              apply negb_false_iff, Qle_bool_iff, Qabs_nonneg).
  - abstract (intros [a|[]|] [b|[]|]; simpl; try done;
              rewrite !negb_false_iff, !Qle_bool_iff; intros Ha Hb;
              rewrite Qred_correct; replace 0%Q with (0 + 0)%Q by reflexivity;
              by apply Qplus_le_compat).
Defined.

End Decimal.
Export Decimal.

(** ** [tally_mcp.py]: parsers *)

Module Parsers.

Record Ledger (num : Type) : Type := mkLedger {
  name : str;
  group : str;
  balance : num
}.
Arguments mkLedger {num} name group balance.
Arguments name {num} l.
Arguments group {num} l.
Arguments balance {num} l.

(** A row of [_parse_display_report]: the dictionaries
    [{"name", "debit", "credit"}] and [{"name", "amount"}]. *)
Inductive ReportRow : Type :=
| DrCrRow (name debit credit : str)
| AmountRow (name amount : str).

Section WithLibraries.
Context `{PyFloat}.
(** [ET.fromstring] *)
Variable fromstring : str → Res Element.

Definition _parse_xml (raw : str) : Res Element := fromstring (_clean_xml raw).

(** One turn of the loop of [_parse_ledgers]: the record appended for
    [el], or [None] where the loop says [continue]. *)
Definition ledger_of (el : Element) : Res (option (Ledger F)) :=
  let name := get el (py "NAME") in
  if negb (truthy name) then Ok None
  else
    let parent_el := find el (py "PARENT") in
    let closing_el := find el (py "CLOSINGBALANCE") in
    let group :=
      match parent_el with
      | Some pe => if truthy (text pe) then strip (default [] (text pe)) else []
      | None => []
      end in
    balance ←
      match closing_el with
      | Some ce =>
        if truthy (text ce) && nonempty (strip (default [] (text ce)))
        then float (strip (default [] (text ce)))
        else Ok fzero
      | None => Ok fzero
      end;
    Ok (Some (mkLedger (default [] name) group balance)).

(** [for el in ...: ...; results.append(...)] *)
Fixpoint ledgers_loop (els : list Element) (results : list (Ledger F))
    : Res (list (Ledger F)) :=
  match els with
  | [] => Ok results
  | el :: els' =>
    l ← ledger_of el;
    ledgers_loop els' (results ++ option_list l)
  end.

Definition _parse_ledgers (raw : str) : Res (list (Ledger F)) :=
  root ← _parse_xml raw;
  ledgers_loop (iter root (py "LEDGER")) [].

(** [els[i].text.strip() if i < len(els) and els[i].text and
    els[i].text.strip() else dflt] *)
Definition amount_text (els : list Element) (i : nat) (dflt : str) : str :=
  match els !! i with
  | Some e =>
    if truthy (text e) && nonempty (strip (default [] (text e)))
    then strip (default [] (text e))
    else dflt
  | None => dflt
  end.

(** [a or b] on strings *)
Definition or_else (a b : str) : str := if nonempty a then a else b.

(** [for i, name in enumerate(names)]: the three loops, from index [i]. *)
Fixpoint trial_balance_rows (dr_els cr_els : list Element) (i : nat)
    (names : list str) : list ReportRow :=
  match names with
  | [] => []
  | name :: names' =>
    let dr := amount_text dr_els i [] in
    let cr := amount_text cr_els i [] in
    DrCrRow name dr cr :: trial_balance_rows dr_els cr_els (S i) names'
  end.

Fixpoint pnl_rows (main_els sub_els : list Element) (i : nat)
    (names : list str) : list ReportRow :=
  match names with
  | [] => []
  | name :: names' =>
    let main := amount_text main_els i [] in
    let sub := amount_text sub_els i [] in
    AmountRow name (or_else main (or_else sub (py "0")))
      :: pnl_rows main_els sub_els (S i) names'
  end.

Fixpoint balance_sheet_rows (main_els : list Element) (i : nat)
    (names : list str) : list ReportRow :=
  match names with
  | [] => []
  | name :: names' =>
    let amt := amount_text main_els i (py "0") in
    AmountRow name amt :: balance_sheet_rows main_els (S i) names'
  end.

(** [[el.text for el in root.iter("DSPDISPNAME") if el.text]] *)
Definition display_names (root : Element) : list str :=
  omap (λ el, if truthy (text el) then text el else None)
       (iter root (py "DSPDISPNAME")).

Definition _parse_display_report (raw amount_tag : str) : Res (list ReportRow) :=
  root ← _parse_xml raw;
  let names := display_names root in
  if str_eqb amount_tag (py "trial_balance") then
    let dr_els := iter root (py "DSPCLDRAMTA") in
    let cr_els := iter root (py "DSPCLCRAMTA") in
    Ok (trial_balance_rows dr_els cr_els 0 names)
  else if str_eqb amount_tag (py "pnl") then
    let main_els := iter root (py "BSMAINAMT") in
    let sub_els := iter root (py "PLSUBAMT") in
    Ok (pnl_rows main_els sub_els 0 names)
  else if str_eqb amount_tag (py "balance_sheet") then
    let main_els := iter root (py "BSMAINAMT") in
    Ok (balance_sheet_rows main_els 0 names)
  else Ok [].

(** Steps 1 and 2 of [_extract_voucher_amount]: [Some v] when the loop
    returns [v], [None] when it runs to its end. *)
Fixpoint party_ledger_loop (entries : list Element) : option F :=
  match entries with
  | [] => None
  | entry :: entries' =>
    if str_eqb (findtext entry (py "ISPARTYLEDGER") (py "No")) (py "Yes") then
      let amt := findtext entry (py "AMOUNT") [] in
      if nonempty amt then
        match float amt with
        | Ok x => Some (fabs x)
        | Raise _ => party_ledger_loop entries'
        end
      else party_ledger_loop entries'
    else party_ledger_loop entries'
  end.

(** Step 3: the loop that accumulates [inv_total]. *)
Fixpoint inventory_loop (invs : list Element) (inv_total : F) : F :=
  match invs with
  | [] => inv_total
  | inv :: invs' =>
    let amt := findtext inv (py "AMOUNT") [] in
    if nonempty amt then
      match float amt with
      | Ok x => inventory_loop invs' (fadd inv_total (fabs x))
      | Raise _ => inventory_loop invs' inv_total
      end
    else inventory_loop invs' inv_total
  end.

(** Step 4. *)
Fixpoint any_amount_loop (amt_els : list Element) : option F :=
  match amt_els with
  | [] => None
  | amt_el :: amt_els' =>
    if truthy (text amt_el) && nonempty (strip (default [] (text amt_el))) then
      match float (default [] (text amt_el)) with
      | Ok x =>
        let val := fabs x in
        if flt fzero val then Some val else any_amount_loop amt_els'
      | Raise _ => any_amount_loop amt_els'
      end
    else any_amount_loop amt_els'
  end.

Definition _extract_voucher_amount (voucher_el : Element) : F :=
  match party_ledger_loop (iter voucher_el (py "ALLLEDGERENTRIES.LIST")) with
  | Some v => v
  | None =>
  match party_ledger_loop (iter voucher_el (py "LEDGERENTRIES.LIST")) with
  | Some v => v
  | None =>
    let inv_total := inventory_loop (iter voucher_el (py "INVENTORYENTRIES.LIST")) fzero in
    if flt fzero inv_total then inv_total
    else
      match any_amount_loop (iter voucher_el (py "AMOUNT")) with
      | Some v => v
      | None => fzero
      end
  end
  end.

(** [_fmt_currency] *)
Definition _fmt_currency (value : F) : str :=
  py "₹" ++ fmt_comma_2f (fabs value).

(** The line [get_all_ledgers] and [search_ledger] print for a ledger. *)
Definition ledger_line (l : Ledger F) : str :=
  let bal_str :=
    if negb (feqb (balance l) fzero) then _fmt_currency (balance l) else py "0" in
  name l ++ py " | Group: " ++ group l ++ py " | Balance: " ++ bal_str.

(** The inner [format] of [get_all_ledgers]. *)
Definition get_all_ledgers_format (raw : str) : Res str :=
  ledgers ← _parse_ledgers raw;
  match ledgers with
  | [] => Ok (py "No ledgers found.")
  | _ => Ok (join nl (map ledger_line ledgers))
  end.

End WithLibraries.

End Parsers.
Export Parsers.

(** ** The voucher amount resolver as the design document words it

    A second definition, following the document's prioritized fallback
    chain, to compare [_extract_voucher_amount] with. *)

Module ResolverSpec.
Section WithFloat.
Context `{PyFloat}.

(** The entry is flagged as the party ledger. *)
Definition party_flagged (entry : Element) : bool :=
  str_eqb (findtext entry (py "ISPARTYLEDGER") (py "No")) (py "Yes").

(** The absolute amount of an entry: its [AMOUNT] child, when that holds a
    numeric text. *)
Definition entry_amount (entry : Element) : option F :=
  let amt := findtext entry (py "AMOUNT") [] in
  if nonempty amt then fabs <$> parse_float amt else None.

(** The amounts of the party-flagged entries among [entries]. *)
Definition party_amounts (entries : list Element) : list F :=
  omap (λ e, if party_flagged e then entry_amount e else None) entries.

(** The sum of the absolute inventory-entry amounts. *)
Definition inventory_sum (invs : list Element) : F :=
  foldl fadd fzero (omap entry_amount invs).

(** The strictly positive absolute amounts among the [AMOUNT] elements. *)
Definition positive_amounts (amt_els : list Element) : list F :=
  omap (λ e,
          if truthy (text e) && nonempty (strip (default [] (text e))) then
            match parse_float (default [] (text e)) with
            | Some x => if flt fzero (fabs x) then Some (fabs x) else None
            | None => None
            end
          else None) amt_els.

(** First success wins. *)
Definition fallback_chain (voucher_el : Element) : F :=
  match party_amounts (iter voucher_el (py "ALLLEDGERENTRIES.LIST")) with
  | a :: _ => a
  | [] =>
  match party_amounts (iter voucher_el (py "LEDGERENTRIES.LIST")) with
  | a :: _ => a
  | [] =>
    let total := inventory_sum (iter voucher_el (py "INVENTORYENTRIES.LIST")) in
    if flt fzero total then total
    else
      match positive_amounts (iter voucher_el (py "AMOUNT")) with
      | a :: _ => a
      | [] => fzero
      end
  end
  end.

End WithFloat.
End ResolverSpec.
Export ResolverSpec.

(** ** [snapshot.py]

    The snapshot directory is the map from a key to the record its file
    [<key>.json] decodes to; a file that is missing, or that [json.load]
    rejects, is an absent key. Only [save] writes the directory, so a
    record that is there has its three fields, and writing is taken to
    succeed. That is so for a key that names a file of its own in the
    directory and a text that UTF-8 can encode: a key with a path
    separator makes [open] raise, two spellings of one path share a file,
    and a lone surrogate makes [json.dump] raise. The statements that
    rest on a successful [save] are stated for such keys and texts only.
    [saved_at] is the instant of the save, in microseconds, and
    stands for its ISO-8601 text. *)

Module Snapshot.

Record Snap : Type := mkSnap {
  data : str;
  saved_at : Z;
  timestamp_human : str
}.

Section WithClock.
(** [strftime("%d %b %Y, %I:%M %p")] of an instant. *)
Variable strftime_human : Z → str.

Definition save (key data : str) (now : Z) (dir : gmap str Snap) : gmap str Snap :=
  let snapshot := mkSnap data now (strftime_human now) in
  <[key := snapshot]> dir.
End WithClock.

Definition load (key : str) (dir : gmap str Snap) : option Snap := dir !! key.

(** [age_str], called at instant [now]. [int(diff.total_seconds() / 60)]
    truncates toward zero. The code takes the quotient in binary64, here
    it is exact; the two agree while the age in microseconds is below
    2^53, some 285 years. *)
Definition age_str (key : str) (now : Z) (dir : gmap str Snap) : str :=
  match load key dir with
  | None => py "no cached data"
  | Some snap =>
    let diff := (now - saved_at snap)%Z in
    let minutes := (diff ÷ 60000000)%Z in
    if (minutes <? 1)%Z then py "just now"
    else if (minutes <? 60)%Z then str_of_Z minutes ++ py " min ago"
    else
      let hours := (minutes / 60)%Z in
      if (hours <? 24)%Z then str_of_Z hours ++ py "h ago"
      else
        let days := (hours / 24)%Z in
        str_of_Z days ++ py " days ago"
  end.

End Snapshot.

(** ** [tally_mcp.py]: the live-or-cache wrapper *)

Module Gate.

(** What the wrapper reads and writes outside its arguments: the snapshot
    directory, the module variable [_tally_is_alive] ([None] before the
    first call) and the clock. *)
Record State : Type := mkState {
  snapshots : gmap str Snapshot.Snap;
  _tally_is_alive : option bool;
  clock : Z
}.

Definition stale_banner (age : str) : str :=
  py "⚠️ Tally is offline. Showing cached data from " ++ age ++ py ":" ++ nl
  ++ py "─────────────────────────────" ++ nl.

Definition no_cache_message : str :=
  py "❌ Tally is offline and no cached data available for this query.".

Section WithClock.
Variable strftime_human : Z → str.

(** The [try] block: the formatted result and the state it leaves, or
    the exception that ends it. An exception of [snapshot.save] would end
    it as well; [save] is taken to succeed, which is so for the keys and
    texts named at [Snapshot]. *)
Definition try_live (cache_key : str) (fetch_fn : unit → Res str)
    (format_fn : str → Res str) (st : State) : Res (str * State) :=
  raw ← fetch_fn ();
  if contains (py "<ERROR>") raw then Raise (ConnectionError raw)
  else
    result ← format_fn raw;
    let dir := Snapshot.save strftime_human cache_key result (clock st) (snapshots st) in
    Ok (result, mkState dir (Some true) (clock st)).

Definition _live_or_cache (cache_key : str) (fetch_fn : unit → Res str)
    (format_fn : str → Res str) (st : State) : str * State :=
  match try_live cache_key fetch_fn format_fn st with
  | Ok (result, st') => (result, st')
  | Raise e =>
    let st' := mkState (snapshots st) (Some false) (clock st) in
    let cached := Snapshot.load cache_key (snapshots st) in
    match cached with
    | Some c =>
      let age := Snapshot.age_str cache_key (clock st) (snapshots st) in
      (stale_banner age ++ Snapshot.data c, st')
    | None => (no_cache_message, st')
    end
  end.
End WithClock.

(** The three ways the live path fails. *)
Definition live_path_fails (fetch_fn : unit → Res str) (format_fn : str → Res str) : Prop :=
  (∃ e, fetch_fn () = Raise e)
  ∨ (∃ raw, fetch_fn () = Ok raw
            ∧ (contains (py "<ERROR>") raw = true ∨ ∃ e, format_fn raw = Raise e)).

End Gate.
Export Gate.

(** ** [orchestrator.py] *)

Module Orchestrator.

Inductive Role : Type := system | user | assistant.

(** A turn, [{"role": ..., "content": ...}]. *)
Record Message : Type := mkMessage {
  role : Role;
  content : str
}.

Definition overloaded_message : str :=
  py "⚠️ The AI brain is currently overloaded. Please try again in a minute.".

Definition budget_message : str :=
  py "Could not complete analysis. Please try a simpler question.".

Section WithUnicode.
(** The alphanumeric code points beyond ASCII, from Python's Unicode
    database. *)
Variable unicode_alnum : char → bool.

(** The class [\w]. *)
Definition isword (c : char) : bool :=
  between 48 57 c || between 65 90 c || between 97 122 c || (c =? 95)
  || ((127 <? c) && unicode_alnum c).

Definition any (c : char) : bool := true.
Definition not_quote (c : char) : bool := negb (c =? 34).

(** The pattern of the directive, compiled with [re.DOTALL]: the text
    [TOOL_CALL:], [\s*], the group [\w+], an opening parenthesis, the
    lazy group [.*?] and a closing parenthesis. *)
Definition tool_call_re : regex :=
  lits (py "TOOL_CALL:")
    (Seq (Star isspace)
    (Seq (Group (Plus isword))
    (Seq (Lit 40)
    (Seq (Group (LazyStar any))
         (Lit 41))))).

(** The pattern of one argument: [\w+], [\s*], [=], [\s*], then a double
    quote, any run of characters other than the double quote, and a
    double quote; the name and the run are its two groups. *)
Definition arg_re : regex :=
  Seq (Group (Plus isword))
  (Seq (Star isspace)
  (Seq (Lit 61)
  (Seq (Star isspace)
  (Seq (Lit 34)
  (Seq (Group (Star not_quote))
       (Lit 34)))))).

(** [kwargs[arg_match.group(1)] = arg_match.group(2)] *)
Definition set_kwarg (kwargs : gmap str str) (groups : list str) : gmap str str :=
  match groups with
  | [k; v] => <[k := v]> kwargs
  | _ => kwargs
  end.

(** [parse_tool_call]; [None] stands for [(None, None)]. *)
Definition parse_tool_call (text : str) : option (str * gmap str str) :=
  match search tool_call_re text with
  | None => None
  | Some groups =>
    let tool_name := default [] (groups !! 0%nat) in
    let args_str := strip (default [] (groups !! 1%nat)) in
    let kwargs :=
      if nonempty args_str
      then foldl set_kwarg ∅ (finditer arg_re args_str)
      else ∅ in
    Some (tool_name, kwargs)
  end.

(** The outside world of [handle_query]: the completion endpoint behind
    [call_llm] (its retries included) and the MCP server behind
    [mcp_client.call_tool], each a step on an unspecified state. *)
Context {World : Type}.
Variable call_llm : list Message → World → Res str * World.
Variable call_tool : str → gmap str str → World → Res str * World.
(** [str(e)] *)
Variable exn_text : exn → str.
(** The system prompt put together before the loop. *)
Variable system_prompt : str.

(** What [handle_query] returns and leaves behind: the answer, the
    history dictionary, the world, and the tool calls issued, in order
    (kept for the statements; the code does not record them). *)
Record Outcome : Type := mkOutcome {
  answer : str;
  history : gmap str (list Message);
  world : World;
  tool_calls : list (str * gmap str str)
}.

(** [conversation_history[user_id]] *)
Definition turns_of (conversation_history : gmap str (list Message))
    (user_id : str) : list Message :=
  default [] (conversation_history !! user_id).

(** [l[-20:]] *)
Definition last20 (l : list Message) : list Message := drop (length l - 20) l.

(** The branch taken on a final answer: append the two turns, trim. *)
Definition remember (conversation_history : gmap str (list Message))
    (user_id query llm_response : str) : gmap str (list Message) :=
  let h := turns_of conversation_history user_id
           ++ [mkMessage user query; mkMessage assistant llm_response] in
  if (20 <? length h)%nat then <[user_id := last20 h]> conversation_history
  else <[user_id := h]> conversation_history.

(** [for round_num in range(max_rounds)], with [rounds] turns of the
    loop left. *)
Fixpoint tool_loop (rounds : nat) (user_id query : str)
    (messages : list Message) (conversation_history : gmap str (list Message))
    (w : World) (calls : list (str * gmap str str)) : Outcome :=
  match rounds with
  | O => mkOutcome budget_message conversation_history w calls
  | S rounds' =>
    match call_llm messages w with
    | (Raise e, w) => mkOutcome overloaded_message conversation_history w calls
    | (Ok llm_response, w) =>
      match parse_tool_call llm_response with
      | None =>
        mkOutcome llm_response
          (remember conversation_history user_id query llm_response) w calls
      | Some (tool_name, kwargs) =>
        let '(r, w) := call_tool tool_name kwargs w in
        let tool_result :=
          match r with
          | Ok t => t
          | Raise e => py "Tool error: " ++ exn_text e
          end in
        let messages :=
          messages
          ++ [mkMessage assistant llm_response;
              mkMessage user
                (py "TOOL_RESULT for " ++ tool_name ++ py ":" ++ nl ++ tool_result)] in
        tool_loop rounds' user_id query messages conversation_history w
          (calls ++ [(tool_name, kwargs)])
      end
    end
  end.

Definition max_rounds : nat := 5.

(** [if user_id not in conversation_history:
       conversation_history[user_id] = []] *)
Definition with_user (conversation_history : gmap str (list Message))
    (user_id : str) : gmap str (list Message) :=
  match conversation_history !! user_id with
  | None => <[user_id := []]> conversation_history
  | Some _ => conversation_history
  end.

Definition handle_query (user_id query : str)
    (conversation_history : gmap str (list Message)) (w : World) : Outcome :=
  let conversation_history := with_user conversation_history user_id in
  let messages :=
    [mkMessage system system_prompt]
    ++ turns_of conversation_history user_id
    ++ [mkMessage user query] in
  tool_loop max_rounds user_id query messages conversation_history w [].

End WithUnicode.

End Orchestrator.
Export Orchestrator.

(** ** Notions the statements use *)

Module Notions.

(** The amount element at index [i] is missing, or its text is absent,
    empty or made of whitespace only. *)
Definition blank_amount (els : list Element) (i : nat) : Prop :=
  match els !! i with
  | None => True
  | Some e =>
    match text e with
    | None => True
    | Some t => Forall (λ c, isspace c = true) t
    end
  end.

(** An element with text and no children, and one with children only. *)
Definition leaf (t x : string) : Element := Elem (py t) [] (Some (py x)) [].
Definition node (t : string) (attrs : list (str * str)) (cs : list Element) : Element :=
  Elem (py t) attrs None cs.

(** [<LEDGER NAME="Cash"><PARENT>Cash-in-Hand</PARENT>
     <CLOSINGBALANCE>-300.00</CLOSINGBALANCE></LEDGER>] *)
Definition cash_entry : Element :=
  node "LEDGER" [(py "NAME", py "Cash")]
    [leaf "PARENT" "Cash-in-Hand"; leaf "CLOSINGBALANCE" "-300.00"].

(** [{name: "Cash", group: "Cash-in-Hand", balance: -300.0}] *)
Definition cash_record : Ledger dfloat :=
  mkLedger (py "Cash") (py "Cash-in-Hand") (Fin (-300)).

Definition cash_payload : str :=
  py "<ENVELOPE><LEDGER NAME=" ++ dq ++ py "Cash" ++ dq
  ++ py "><PARENT>Cash-in-Hand</PARENT><CLOSINGBALANCE>-300.00</CLOSINGBALANCE></LEDGER></ENVELOPE>".

Definition cash_tree : Element := node "ENVELOPE" [] [cash_entry].

(** A ledger whose closing balance is not a number. *)
Definition bad_balance_payload : str :=
  py "<ENVELOPE><LEDGER NAME=" ++ dq ++ py "Cash" ++ dq
  ++ py "><PARENT>Cash-in-Hand</PARENT><CLOSINGBALANCE>abc</CLOSINGBALANCE></LEDGER></ENVELOPE>".

Definition bad_balance_tree : Element :=
  node "ENVELOPE" []
    [node "LEDGER" [(py "NAME", py "Cash")]
       [leaf "PARENT" "Cash-in-Hand"; leaf "CLOSINGBALANCE" "abc"]].

(** A sales voucher with a flagged party-ledger entry and an inventory
    entry. *)
Definition sales_voucher : Element :=
  node "VOUCHER" [(py "VCHTYPE", py "Sales")]
    [leaf "DATE" "20250701";
     leaf "PARTYLEDGERNAME" "Debtor_2";
     node "ALLLEDGERENTRIES.LIST" []
       [leaf "LEDGERNAME" "Debtor_2"; leaf "ISPARTYLEDGER" "Yes"; leaf "AMOUNT" "-200.00"];
     node "INVENTORYENTRIES.LIST" []
       [leaf "STOCKITEMNAME" "Item_1"; leaf "AMOUNT" "150.00"]].

(** A trial balance with two names and one debit amount. *)
Definition trial_balance_tree : Element :=
  node "ENVELOPE" []
    [leaf "DSPDISPNAME" "Capital Account"; leaf "DSPCLDRAMTA" " "; leaf "DSPCLCRAMTA" "500.00";
     leaf "DSPDISPNAME" "Current Assets"; leaf "DSPCLDRAMTA" "500.00"].

(** The trial balance was saved 90 minutes before the call. *)
Definition offline_state : State :=
  mkState
    {[ py "trial_balance" :=
         Snapshot.mkSnap (py "Capital Account: Cr 500.00") 0 (py "01 Jul 2025, 09:00 AM") ]}
    None (90 * 60000000).

(** A model that asks for a tool in every round. *)
Definition tool_hungry_llm (messages : list Message) (w : unit) : Res str * unit :=
  (Ok (py "TOOL_CALL: get_all_ledgers()"), w).

(** A model that asks for one tool, then answers. *)
Definition one_tool_llm (messages : list Message) (w : unit) : Res str * unit :=
  if (length messages <? 3)%nat
  then (Ok (py "TOOL_CALL: get_sundry_debtors()"), w)
  else (Ok (py "Debtor_2 owes 200."), w).

Definition stub_tool (tool_name : str) (kwargs : gmap str str) (w : unit) : Res str * unit :=
  (Ok (py "Debtor_2: 200.00"), w).

(** Ten earlier exchanges: twenty stored turns. *)
Definition twenty_turns : list Message :=
  concat (replicate 10 [mkMessage user (py "q"); mkMessage assistant (py "a")]).

End Notions.
Export Notions.

(** ** [tally_mcp.py]: transport *)

Module Transport.

(** What the [with requests.post(...)] block of [_tally_request] does: it
    yields the decoded body, or an exception leaves it, told apart by the
    handler that catches it ([requests.Timeout], [requests.ConnectionError],
    any other [Exception]); [message] is [str(e)]. *)
Inductive HttpOutcome : Type :=
| Body (text : str)
| TimedOut
| Unreachable
| Failed (message : str).

Section WithEndpoint.
(** The two settings read from the environment, and the HTTP exchange. *)
Variable TALLY_URL COMPANY : str.
Variable post : str → HttpOutcome.

Definition _tally_request (xml_payload : str) : str :=
  match post xml_payload with
  | Body text => text
  | TimedOut => py "<ENVELOPE><ERROR>Tally request timed out</ERROR></ENVELOPE>"
  | Unreachable =>
    py "<ENVELOPE><ERROR>Cannot connect to Tally at " ++ TALLY_URL
    ++ py "</ERROR></ENVELOPE>"
  | Failed e => py "<ENVELOPE><ERROR>" ++ e ++ py "</ERROR></ENVELOPE>"
  end.

Definition tally_collection (collection_type : str) : str :=
  _tally_request (join nl
    [py "<ENVELOPE>";
     py "    <HEADER>";
     py "        <VERSION>1</VERSION>";
     py "        <TALLYREQUEST>Export</TALLYREQUEST>";
     py "        <TYPE>Collection</TYPE>";
     py "        <ID>" ++ collection_type ++ py "</ID>";
     py "    </HEADER>";
     py "    <BODY>";
     py "        <DESC>";
     py "            <STATICVARIABLES>";
     py "                <SVEXPORTFORMAT>$$SysName:XML</SVEXPORTFORMAT>";
     py "                <SVCURRENTCOMPANY>" ++ COMPANY ++ py "</SVCURRENTCOMPANY>";
     py "            </STATICVARIABLES>";
     py "        </DESC>";
     py "    </BODY>";
     py "</ENVELOPE>"]).

Definition tally_report (report_name from_date to_date : str) : str :=
  let date_vars :=
    if nonempty from_date && nonempty to_date then
      py "<SVFROMDATE>" ++ from_date ++ py "</SVFROMDATE>"
      ++ py "<SVTODATE>" ++ to_date ++ py "</SVTODATE>"
    else [] in
  _tally_request (join nl
    [py "<ENVELOPE>";
     py "    <HEADER>";
     py "        <VERSION>1</VERSION>";
     py "        <TALLYREQUEST>Export</TALLYREQUEST>";
     py "        <TYPE>Data</TYPE>";
     py "        <ID>" ++ report_name ++ py "</ID>";
     py "    </HEADER>";
     py "    <BODY>";
     py "        <DESC>";
     py "            <STATICVARIABLES>";
     py "                <SVEXPORTFORMAT>$$SysName:XML</SVEXPORTFORMAT>";
     py "                <SVCURRENTCOMPANY>" ++ COMPANY ++ py "</SVCURRENTCOMPANY>";
     py "                " ++ date_vars;
     py "            </STATICVARIABLES>";
     py "        </DESC>";
     py "    </BODY>";
     py "</ENVELOPE>"]).

End WithEndpoint.
End Transport.
Export Transport.

(** ** [tally_mcp.py]: the other parsers, the formatters and the tools *)

Module Tools.

(** A record of [_parse_vouchers]. *)
Record Voucher (num : Type) : Type := mkVoucher {
  v_type : str;
  v_date : str;
  v_party : str;
  v_amount : num;
  v_narration : str;
  v_number : str
}.
Arguments mkVoucher {num} v_type v_date v_party v_amount v_narration v_number.
Arguments v_type {num} v.
Arguments v_date {num} v.
Arguments v_party {num} v.
Arguments v_amount {num} v.
Arguments v_narration {num} v.
Arguments v_number {num} v.

(** [for x in xs: lines.append(f x)], where [f] may raise. *)
Fixpoint for_each {A B : Type} (f : A → Res B) (xs : list A) : Res (list B) :=
  match xs with
  | [] => Ok []
  | x :: xs' =>
    y ← f x;
    ys ← for_each f xs';
    Ok (y :: ys)
  end.

Section WithLibraries.
Context `{PyFloat}.
Variable strftime_human : Z → str.
Variable fromstring : str → Res Element.
Variable TALLY_URL COMPANY : str.
Variable post : str → HttpOutcome.

(** [[el.get("NAME") for el in root.iter(t) if el.get("NAME")]] *)
Definition names_of (root : Element) (t : str) : list str :=
  omap (λ el, if truthy (get el (py "NAME")) then get el (py "NAME") else None)
       (iter root t).

Definition _parse_groups (raw : str) : Res (list str) :=
  root ← _parse_xml fromstring raw;
  Ok (names_of root (py "GROUP")).

Definition _parse_stock_items (raw : str) : Res (list str) :=
  root ← _parse_xml fromstring raw;
  Ok (names_of root (py "STOCKITEM")).

(** The record [_parse_vouchers] appends for the element [v]. *)
Definition voucher_of (v : Element) : Voucher F :=
  let amount := _extract_voucher_amount v in
  mkVoucher
    (default (py "?") (get v (py "VCHTYPE")))
    (findtext v (py "DATE") [])
    (findtext v (py "PARTYLEDGERNAME") [])
    amount
    (findtext v (py "NARRATION") [])
    (findtext v (py "VOUCHERNUMBER") []).

Definition _parse_vouchers (raw : str) : Res (list (Voucher F)) :=
  root ← _parse_xml fromstring raw;
  Ok (map voucher_of (iter root (py "VOUCHER"))).

(** The inner [format] of [get_account_groups] and of [get_stock_items]. *)
Definition get_account_groups_format (raw : str) : Res str :=
  groups ← _parse_groups raw;
  Ok (match groups with [] => py "No groups found." | _ => join nl groups end).

Definition get_stock_items_format (raw : str) : Res str :=
  items ← _parse_stock_items raw;
  Ok (match items with [] => py "No stock items found." | _ => join nl items end).

(** A line of the trial balance; reading the key [debit] of a row that has
    none raises [KeyError]. *)
Definition trial_balance_line (r : ReportRow) : Res str :=
  match r with
  | DrCrRow name debit credit =>
    let parts :=
      [name ++ py ":"]
      ++ (if nonempty debit then [py "Dr " ++ debit] else [])
      ++ (if nonempty credit then [py "Cr " ++ credit] else []) in
    Ok (join (py " ") parts)
  | AmountRow _ _ => Raise (OtherError (py "'debit'"))
  end.

(** A line of the profit-and-loss statement and of the balance sheet. *)
Definition amount_line (r : ReportRow) : Res str :=
  match r with
  | AmountRow name amount =>
    let amt := if str_eqb amount (py "0") then py "-" else amount in
    Ok (name ++ py ": " ++ amt)
  | DrCrRow _ _ _ => Raise (OtherError (py "'amount'"))
  end.

(** The inner [format] of [get_trial_balance], [get_profit_and_loss] and
    [get_balance_sheet]. *)
Definition get_trial_balance_format (raw : str) : Res str :=
  rows ← _parse_display_report fromstring raw (py "trial_balance");
  match rows with
  | [] => Ok (py "Empty trial balance.")
  | _ => lines ← for_each trial_balance_line rows; Ok (join nl lines)
  end.

Definition get_profit_and_loss_format (raw : str) : Res str :=
  rows ← _parse_display_report fromstring raw (py "pnl");
  match rows with
  | [] => Ok (py "Empty P&L.")
  | _ => lines ← for_each amount_line rows; Ok (join nl lines)
  end.

Definition get_balance_sheet_format (raw : str) : Res str :=
  rows ← _parse_display_report fromstring raw (py "balance_sheet");
  match rows with
  | [] => Ok (py "Empty balance sheet.")
  | _ => lines ← for_each amount_line rows; Ok (join nl lines)
  end.

(** A line of [get_transactions_for_date]. *)
Definition transaction_line (v : Voucher F) : str :=
  let party := or_else (v_party v) (py "-") in
  let amt := _fmt_currency (v_amount v) in
  let line := py "  " ++ v_type v ++ py " | " ++ party ++ py " | " ++ amt in
  if nonempty (v_narration v) then line ++ py " | " ++ v_narration v else line.

(** The inner [format] of [get_transactions_for_date]. *)
Definition get_transactions_for_date_format (date raw : str) : Res str :=
  vouchers ← _parse_vouchers raw;
  match vouchers with
  | [] => Ok (py "No transactions on " ++ date ++ py ".")
  | _ =>
    let lines :=
      [py "Transactions on " ++ date ++ py ": ("
       ++ str_of_Z (Z.of_nat (length vouchers)) ++ py " vouchers)" ++ nl]
      ++ map transaction_line vouchers in
    Ok (join nl lines)
  end.

(** The tools: each hands its [fetch] and [format] to [_live_or_cache]. *)
Definition get_all_ledgers (st : State) : str * State :=
  _live_or_cache strftime_human (py "ledgers")
    (λ _, Ok (tally_collection TALLY_URL COMPANY post (py "Ledger")))
    (get_all_ledgers_format fromstring) st.

Definition get_account_groups (st : State) : str * State :=
  _live_or_cache strftime_human (py "groups")
    (λ _, Ok (tally_collection TALLY_URL COMPANY post (py "Group")))
    get_account_groups_format st.

Definition get_stock_items (st : State) : str * State :=
  _live_or_cache strftime_human (py "stock_items")
    (λ _, Ok (tally_collection TALLY_URL COMPANY post (py "StockItem")))
    get_stock_items_format st.

Definition get_trial_balance (st : State) : str * State :=
  _live_or_cache strftime_human (py "trial_balance")
    (λ _, Ok (tally_report TALLY_URL COMPANY post (py "Trial Balance") [] []))
    get_trial_balance_format st.

Definition get_profit_and_loss (st : State) : str * State :=
  _live_or_cache strftime_human (py "pnl")
    (λ _, Ok (tally_report TALLY_URL COMPANY post (py "Profit and Loss") [] []))
    get_profit_and_loss_format st.

Definition get_balance_sheet (st : State) : str * State :=
  _live_or_cache strftime_human (py "balance_sheet")
    (λ _, Ok (tally_report TALLY_URL COMPANY post (py "Balance Sheet") [] []))
    get_balance_sheet_format st.

Definition get_transactions_for_date (date : str) (st : State) : str * State :=
  _live_or_cache strftime_human (py "txn_" ++ date)
    (λ _, Ok (tally_report TALLY_URL COMPANY post (py "Day Book") date date))
    (get_transactions_for_date_format date) st.

(** [str.lower] *)
Variable lower : str → str.

(** The inner [format] of [search_ledger]. *)
Definition search_ledger_format (partial_name raw : str) : Res str :=
  ledgers ← _parse_ledgers fromstring raw;
  let query := lower partial_name in
  let matches := filter (λ l, contains query (lower (name l)) = true) ledgers in
  match matches with
  | [] =>
    let all_names := map name ledgers in
    Ok (py "No match for '" ++ partial_name ++ py "'. Available: "
        ++ join (py ", ") all_names)
  | _ => Ok (join nl (map ledger_line matches))
  end.

Definition search_ledger (partial_name : str) (st : State) : str * State :=
  _live_or_cache strftime_human (py "search_" ++ lower partial_name)
    (λ _, Ok (tally_collection TALLY_URL COMPANY post (py "Ledger")))
    (search_ledger_format partial_name) st.

(** [by_type[t] += 1] on a [Counter]: its items keep the order in which
    their keys were first added. *)
Fixpoint count_up (t : str) (by_type : list (str * nat)) : list (str * nat) :=
  match by_type with
  | [] => [(t, 1%nat)]
  | (t', c) :: rest =>
    if str_eqb t' t then (t', S c) :: rest else (t', c) :: count_up t rest
  end.

(** [amounts_by_type[t] += amount] on a [defaultdict(float)]. *)
Definition add_amount (t : str) (amount : F) (amounts_by_type : gmap str F)
    : gmap str F :=
  <[t := fadd (default fzero (amounts_by_type !! t)) amount]> amounts_by_type.

(** The first loop of [get_transactions_for_period] over the vouchers. *)
Fixpoint tally_types (vouchers : list (Voucher F)) (by_type : list (str * nat))
    (amounts_by_type : gmap str F) : list (str * nat) * gmap str F :=
  match vouchers with
  | [] => (by_type, amounts_by_type)
  | v :: vouchers' =>
    tally_types vouchers' (count_up (v_type v) by_type)
      (add_amount (v_type v) (v_amount v) amounts_by_type)
  end.

(** [Counter.most_common()] is [sorted(items, key=count, reverse=True)]:
    by falling count, items of equal count in their earlier order. The
    item [x] stood before all of [sorted]. *)
Fixpoint insert_by_count (x : str * nat) (sorted : list (str * nat))
    : list (str * nat) :=
  match sorted with
  | [] => [x]
  | y :: rest =>
    if (snd x <? snd y)%nat then y :: insert_by_count x rest else x :: y :: rest
  end.

Definition most_common (by_type : list (str * nat)) : list (str * nat) :=
  foldr insert_by_count [] by_type.

(** The two kinds of lines of [get_transactions_for_period]. *)
Definition type_line (amounts_by_type : gmap str F) (item : str * nat) : str :=
  py "  " ++ fst item ++ py ": " ++ str_of_Z (Z.of_nat (snd item))
  ++ py " vouchers, " ++ _fmt_currency (default fzero (amounts_by_type !! fst item)).

Definition period_line (v : Voucher F) : str :=
  let party := or_else (v_party v) (py "-") in
  py "  " ++ v_date v ++ py " | " ++ v_type v ++ py " | " ++ party ++ py " | "
  ++ _fmt_currency (v_amount v).

(** The inner [format] of [get_transactions_for_period]. *)
Definition get_transactions_for_period_format (from_date to_date raw : str)
    : Res str :=
  vouchers ← _parse_vouchers raw;
  match vouchers with
  | [] =>
    Ok (py "No transactions from " ++ from_date ++ py " to " ++ to_date ++ py ".")
  | _ =>
    let '(by_type, amounts_by_type) := tally_types vouchers [] ∅ in
    let lines :=
      [py "Period: " ++ from_date ++ py " to " ++ to_date;
       py "Total vouchers: " ++ str_of_Z (Z.of_nat (length vouchers)) ++ nl]
      ++ map (type_line amounts_by_type) (most_common by_type)
      ++ [nl ++ py "First 15:"]
      ++ map period_line (take 15 vouchers)
      ++ (if (15 <? length vouchers)%nat
          then [py "  ... and " ++ str_of_Z (Z.of_nat (length vouchers - 15))
                ++ py " more"]
          else []) in
    Ok (join nl lines)
  end.

Definition get_transactions_for_period (from_date to_date : str) (st : State)
    : str * State :=
  _live_or_cache strftime_human (py "txn_" ++ from_date ++ py "_" ++ to_date)
    (λ _, Ok (tally_report TALLY_URL COMPANY post (py "Day Book") from_date to_date))
    (get_transactions_for_period_format from_date to_date) st.

(** The labels and cache keys [get_tally_status] lists. *)
Definition cache_keys : list (str * str) :=
  [(py "Ledgers", py "ledgers");
   (py "Trial Balance", py "trial_balance");
   (py "P&L", py "pnl");
   (py "Balance Sheet", py "balance_sheet");
   (py "Debtors", py "debtors");
   (py "Creditors", py "creditors")].

(** [get_tally_status]. [tally_collection] catches every exception of the
    request, so the [except] branch of the ping is not taken. The tool
    reads the snapshot directory and the clock and writes neither. *)
Definition get_tally_status (st : State) : str :=
  let raw := tally_collection TALLY_URL COMPANY post (py "Group") in
  let status :=
    if negb (contains (py "<ERROR>") raw)
    then py "🟢 Tally is ONLINE and responding"
    else py "🔴 Tally returned an error" in
  let lines := [status; []] in
  let lines := lines ++ [py "Cached data ages:"] in
  let lines :=
    lines
    ++ map (λ lk, py "  " ++ fst lk ++ py ": "
                  ++ Snapshot.age_str (snd lk) (clock st) (snapshots st))
           cache_keys in
  join nl lines.

End WithLibraries.
End Tools.
Export Tools.

(** ** [telegram_bot.py] *)

Module TelegramBot.

Definition unauthorized_message (uid : Z) : str :=
  py "⛔ Unauthorized. Your ID: " ++ str_of_Z uid.

(** The size of a reply, in characters. *)
Definition chunk_size : nat := 4000.

(** [range(0, n, step)] *)
Definition range_step (n step : nat) : list nat :=
  map (λ k, k * step)%nat (seq 0 ((n + (step - 1)) / step)).

(** [[answer[i : i + 4000] for i in range(0, len(answer), 4000)]]: the
    replies [handle_message] sends for an answer. *)
Definition reply_chunks (answer : str) : list str :=
  map (λ i, take chunk_size (drop i answer)) (range_step (length answer) chunk_size).

Section WithOrchestrator.
Variable unicode_alnum : char → bool.
Context {World : Type}.
Variable call_llm : list Message → World → Res str * World.
Variable call_tool : str → gmap str str → World → Res str * World.
Variable exn_text : exn → str.
Variable system_prompt : str.
(** The user ids of [ALLOWED_TELEGRAM_USERS]. *)
Variable ALLOWED_USERS : gset Z.

(** What handling a message leaves: the replies sent, in order, the
    history dictionary, the world and the tool calls issued. *)
Record Handled : Type := mkHandled {
  replies : list str;
  history_after : gmap str (list Message);
  world_after : World;
  calls_made : list (str * gmap str str)
}.

(** [ALLOWED_USERS and uid not in ALLOWED_USERS] *)
Definition refused (uid : Z) : bool :=
  negb (bool_decide (ALLOWED_USERS = ∅)) && negb (bool_decide (uid ∈ ALLOWED_USERS)).

(** [handle_message] for the user [uid] and the message text [query].
    [handle_query] does not raise here, so the [except] branch is not
    taken. *)
Definition handle_message (uid : Z) (query : str)
    (conversation_history : gmap str (list Message)) (w : World) : Handled :=
  if refused uid then
    mkHandled [unauthorized_message uid] conversation_history w []
  else if negb (nonempty query) then
    mkHandled [] conversation_history w []
  else
    let o := handle_query unicode_alnum call_llm call_tool exn_text system_prompt
               (str_of_Z uid) query conversation_history w in
    mkHandled (reply_chunks (answer o)) (history o) (world o) (tool_calls o).

End WithOrchestrator.

(** [clear]: the reply and the history dictionary it leaves. *)
Definition clear (uid : Z) (conversation_history : gmap str (list Message))
    : str * gmap str (list Message) :=
  let uid := str_of_Z uid in
  let conversation_history := delete uid conversation_history in
  let conversation_history := <[uid := []]> conversation_history in
  (py "🧹 Conversation cleared! Ask me something fresh.", conversation_history).

End TelegramBot.
Export TelegramBot.

(** ** Further notions the statements use *)

Module MoreNotions.

Section WithFloat.
Context `{PyFloat}.

(** The [LEDGER] elements the loop of [_parse_ledgers] does not skip. *)
Definition named_ledgers (root : Element) : list Element :=
  filter (λ el, truthy (get el (py "NAME")) = true) (iter root (py "LEDGER")).

(** The closing balance of the element is missing or blank, or is a text
    [float] accepts. *)
Definition balance_readable (el : Element) : Prop :=
  match find el (py "CLOSINGBALANCE") with
  | Some ce =>
    if truthy (text ce) && nonempty (strip (default [] (text ce)))
    then is_Some (parse_float (strip (default [] (text ce))))
    else True
  | None => True
  end.
End WithFloat.

(** The transport has no body to give, whatever the request. *)
Definition backend_down (post : str → HttpOutcome) : Prop :=
  ∀ payload, ∀ text, post payload ≠ Body text.

(** What [_live_or_cache] answers for [key] when the live path fails. *)
Definition fallback_answer (key : str) (st : State) : str :=
  match snapshots st !! key with
  | Some snap =>
    stale_banner (Snapshot.age_str key (clock st) (snapshots st)) ++ Snapshot.data snap
  | None => no_cache_message
  end.

(** A model that fails, and one that answers a script of responses, one
    per call. *)
Definition failing_llm (messages : list Message) (w : unit) : Res str * unit :=
  (Raise (OtherError (py "RetryError")), w).

Definition plain_llm (messages : list Message) (w : unit) : Res str * unit :=
  (Ok (py "The trial balance is balanced."), w).

Definition down_post (payload : str) : HttpOutcome := TimedOut.

Definition groups_tree : Element :=
  node "ENVELOPE" []
    [node "GROUP" [(py "NAME", py "Bank Accounts")] [];
     node "GROUP" [(py "NAME", [])] [];
     node "GROUP" [] [];
     node "GROUP" [(py "NAME", py "Sundry Debtors")] []].

Definition two_ledgers_tree : Element :=
  node "ENVELOPE" []
    [cash_entry;
     node "LEDGER" [] [leaf "CLOSINGBALANCE" "abc"];
     node "LEDGER" [(py "NAME", py "Rent")] [leaf "CLOSINGBALANCE" "  "]].

Definition day_book_tree : Element := node "ENVELOPE" [] [sales_voucher].

(** The row carries the keys [debit] and [credit]; the row carries the
    key [amount]. *)
Definition is_drcr (r : ReportRow) : Prop :=
  match r with DrCrRow _ _ _ => True | AmountRow _ _ => False end.

Definition is_amount (r : ReportRow) : Prop :=
  match r with DrCrRow _ _ _ => False | AmountRow _ _ => True end.

(** The text is empty, or begins with a character outside the class. *)
Definition stops (p : char → bool) (b : str) : Prop :=
  match b with [] => True | c :: _ => p c = false end.

(** A non-empty run of [\w] characters, none of them whitespace. *)
Definition identifier (unicode_alnum : char → bool) (s : str) : Prop :=
  s ≠ [] ∧ Forall (λ c, isword unicode_alnum c = true ∧ isspace c = false) s.

(** The model wrote this directive as the reply to a request that begins
    with the messages [base]. *)
Definition requested (unicode_alnum : char → bool) {World : Type}
    (call_llm : list Message → World → Res str * World)
    (base : list Message) (call : str * gmap str str) : Prop :=
  ∃ messages w text w',
    base `prefix_of` messages
    ∧ call_llm messages w = (Ok text, w')
    ∧ parse_tool_call unicode_alnum text = Some call.

(** A cache key that names a file of its own in the snapshot directory,
    on a POSIX file system: at most 200 characters, each a lower-case
    ASCII letter, a digit or an underscore. Two such keys that differ
    name different files. *)
Definition plain_key (key : str) : bool :=
  (length key <=? 200)%nat
  && forallb (λ c, between 97 122 c || between 48 57 c || (c =? 95)) key.

(** A text that UTF-8 can encode: no surrogate code point. *)
Definition encodable (s : str) : bool :=
  forallb (λ c, negb (between 55296 57343 c)) s.

(** One hundred years of 365 days, in microseconds. *)
Definition century : Z := 36500 * 86400000000.

(** [x >= 0] *)
Definition fge_zero `{PyFloat} (x : F) : bool := flt fzero x || feqb x fzero.

(** A voucher whose flagged party-ledger entry has the amount text
    [nan]. *)
Definition nan_voucher : Element :=
  node "VOUCHER" [(py "VCHTYPE", py "Sales")]
    [node "ALLLEDGERENTRIES.LIST" []
       [leaf "LEDGERNAME" "Debtor_2"; leaf "ISPARTYLEDGER" "Yes"; leaf "AMOUNT" "nan"]].

(** [str.lower] on ASCII text. *)
Definition ascii_lower (s : str) : str :=
  map (λ c, if between 65 90 c then c + 32 else c) s.

(** A day book of three vouchers: a sale, a payment, a sale. *)
Definition payment_voucher : Element :=
  node "VOUCHER" [(py "VCHTYPE", py "Payment")]
    [leaf "DATE" "20250702"; leaf "PARTYLEDGERNAME" "Creditor_1";
     leaf "AMOUNT" "75.00"].

Definition period_tree : Element :=
  node "ENVELOPE" [] [sales_voucher; payment_voucher; sales_voucher].

(** The directive that asks for the ledger named Cash. *)
Definition search_directive : str :=
  py "TOOL_CALL: search_ledger(partial_name=" ++ dq ++ py "Cash" ++ dq ++ py ")".

End MoreNotions.
Export MoreNotions.

(** * Properties *)

Example clean_ex1 : _clean_xml (py "a&#4;b&#31;c&#9;d&#13;e") = py "abc&#9;d&#13;e".
Proof. vm_compute. reflexivity. Qed.

Example clean_ex2 : _clean_xml (py "&&#1;#1;") = py "&#1;".
Proof. vm_compute. reflexivity. Qed.

Example clean_ex3 : _clean_xml (py "&#10;&#12;") = py "&#12;".
Proof. vm_compute. reflexivity. Qed.

Example py_ex : py "₹⚠" = [8377; 9888].
Proof. vm_compute. reflexivity. Qed.

(** ** Properties of the regular-expression scan *)

Section ReFacts.
Implicit Types (r : regex) (s : str).

Lemma sub_from_sublist r skip s : sub_from r skip s `sublist_of` s.
Proof.
  revert skip; induction s as [|c s IH]; intros skip; simpl; [constructor|].
  destruct skip as [|n]; [|by constructor].
  destruct (re_match r (c :: s)) as [[[|n] caps]|]; by constructor.
Qed.

Lemma sub_empty_cls p s : sub_empty (Cls p) s = filter (λ c, p c = false) s.
Proof.
  unfold sub_empty; induction s as [|c s IH]; [done|].
  cbn [sub_from]. unfold re_match; cbn [m].
  rewrite filter_cons. destruct (p c) eqn:Hp.
  - replace (length (c :: s) - length s)%nat with 1%nat by (simpl; lia).
    rewrite decide_False by congruence. exact IH.
  - rewrite decide_True by done. by rewrite IH.
Qed.

Lemma sub_empty_no_match r s : search r s = None → sub_empty r s = s.
Proof.
  unfold sub_empty; induction s as [|c s IH]; [done|].
  cbn [search sub_from].
  destruct (re_match r (c :: s)) as [[n caps]|]; [done|].
  intros H. by rewrite IH.
Qed.
Lemma sub_from_step r c s :
  sub_from r 0 (c :: s) =
  match match_len r (c :: s) with
  | Some (S n) => sub_from r n s
  | _ => c :: sub_from r 0 s
  end.
Proof.
  unfold match_len. cbn [sub_from].
  by destruct (re_match r (c :: s)) as [[[|n] caps]|].
Qed.

(** The scan of [a ++ b] is the scan of [a] followed by the scan of [b],
    provided no match that starts in [a] depends on, or reaches into,
    [b]. *)
Lemma sub_from_app r (a b : str) skip :
  (∀ a1 c a2, a = a1 ++ c :: a2 →
     match_len r (c :: a2 ++ b) = match_len r (c :: a2)) →
  (∀ a1 a2 n, a = a1 ++ a2 → match_len r a2 = Some n → (n ≤ length a2)%nat) →
  (skip ≤ length a)%nat →
  sub_from r skip (a ++ b) = sub_from r skip a ++ sub_from r 0 b.
Proof.
  revert skip. induction a as [|c a IH]; intros skip Hagree Hbound Hskip.
  { simpl in Hskip. by replace skip with 0%nat by lia. }
  assert (IH' : ∀ k, (k ≤ length a)%nat →
            sub_from r k (a ++ b) = sub_from r k a ++ sub_from r 0 b).
  { intros k Hk. apply IH; [| |done].
    - intros a1 c' a2 ->. by apply (Hagree (c :: a1)).
    - intros a1 a2 n ->. by apply (Hbound (c :: a1)). }
  destruct skip as [|k].
  - rewrite <- app_comm_cons, !sub_from_step, (Hagree [] c a eq_refl).
    destruct (match_len r (c :: a)) as [[|n]|] eqn:E.
    + simpl. f_equal. apply IH'. lia.
    + apply IH'. apply (Hbound [] (c :: a) _ eq_refl) in E. simpl in E. lia.
    + simpl. f_equal. apply IH'. lia.
  - simpl. apply IH'. simpl in Hskip. lia.
Qed.

Lemma sub_from_skip_all r (a b : str) :
  sub_from r (length a) (a ++ b) = sub_from r 0 b.
Proof. induction a as [|c a IH]; [done|]. exact IH. Qed.
End ReFacts.

(** ** Properties of the sanitizer *)

(** Turns boolean tests on code points into linear arithmetic. *)
Ltac char_arith :=
  unfold between in *;
  repeat match goal with
  | H : _ && _ = true |- _ => apply andb_true_iff in H; destruct H
  | H : _ && _ = false |- _ => apply andb_false_iff in H; destruct H
  | H : _ || _ = true |- _ => apply orb_true_iff in H; destruct H
  | H : _ || _ = false |- _ => apply orb_false_iff in H; destruct H
  | H : (_ <=? _) = true |- _ => apply N.leb_le in H
  | H : (_ <=? _) = false |- _ => apply N.leb_gt in H
  | H : (_ =? _) = true |- _ => apply N.eqb_eq in H
  | H : (_ =? _) = false |- _ => apply N.eqb_neq in H
  end;
  try lia.

Lemma illegal_ref_is_short_ref (s : str) :
  re_match short_dec_ref s = None → re_match _ILLEGAL_XML_CHARS s = None.
Proof.
  unfold re_match, short_dec_ref, _ILLEGAL_XML_CHARS, digit.
  replace (py "&#") with [38; 35] by (vm_compute; reflexivity).
  destruct s as [|c0 [|c1 [|c2 [|c3 [|c4 s]]]]]; cbn -[N.eqb between];
    repeat (match goal with
            | |- context [if ?b then _ else _] => destruct b eqn:?
            end; cbn -[N.eqb between]); try done; exfalso; char_arith.
Qed.

Lemma search_short_ref_none (s : str) :
  search short_dec_ref s = None → search _ILLEGAL_XML_CHARS s = None.
Proof.
  induction s as [|c s IH]; cbn [search].
  - destruct (re_match short_dec_ref []) as [[n caps]|] eqn:E; [done|].
    intros _. by rewrite (illegal_ref_is_short_ref _ E).
  - destruct (re_match short_dec_ref (c :: s)) as [[n caps]|] eqn:E; [done|].
    intros H. rewrite (illegal_ref_is_short_ref _ E). auto.
Qed.

Lemma clean_xml_filter (raw : str) :
  _clean_xml raw =
  filter (λ c, illegal_raw c = false) (sub_empty _ILLEGAL_XML_CHARS raw).
Proof. unfold _clean_xml, _ILLEGAL_RAW_CHARS. apply sub_empty_cls. Qed.

Lemma filter_fixed {A} (P : A → Prop) `{!∀ x, Decision (P x)} (l : list A) :
  Forall P l → filter P l = l.
Proof.
  induction 1 as [|x l Hx _ IH]; [done|].
  by rewrite filter_cons, decide_True, IH.
Qed.

Ltac open_ref_pattern :=
  unfold match_len, re_match, _ILLEGAL_XML_CHARS, digit;
  replace (py "&#") with [38; 35] by (vm_compute; reflexivity).

Ltac split_tests :=
  repeat (match goal with
          | |- context [if ?b then _ else _] => destruct b eqn:?
          | H : context [if ?b then _ else _] |- _ => destruct b eqn:?
          end; cbn -[N.eqb between length] in * ).

(** A match of the reference pattern lies within the text it is found
    in, ... *)
Lemma illegal_ref_bound (s : str) n :
  match_len _ILLEGAL_XML_CHARS s = Some n → (n ≤ length s)%nat.
Proof.
  open_ref_pattern.
  destruct s as [|c0 [|c1 [|c2 [|c3 [|c4 s]]]]]; cbn -[N.eqb between length];
    split_tests; try done; intros [= <-]; simpl; lia.
Qed.

(** ... stays a match when text is added after it, ... *)
Lemma illegal_ref_stable (a b : str) n :
  match_len _ILLEGAL_XML_CHARS a = Some n →
  match_len _ILLEGAL_XML_CHARS (a ++ b) = Some n.
Proof.
  open_ref_pattern.
  destruct a as [|c0 [|c1 [|c2 [|c3 [|c4 a]]]]]; cbn -[N.eqb between length];
    split_tests; try done; intros [= <-]; f_equal; simpl; rewrite ?length_app; lia.
Qed.

(** ... and is not completed by an ampersand or a raw control character
    that follows. *)
Lemma illegal_ref_agrees c (a b : str) :
  match b with [] => True | x :: _ => x = 38 ∨ illegal_raw x = true end →
  match_len _ILLEGAL_XML_CHARS (c :: a ++ b) = match_len _ILLEGAL_XML_CHARS (c :: a).
Proof.
  intros Hb. open_ref_pattern.
  destruct a as [|c1 [|c2 [|c3 [|c4 a]]]]; cbn -[N.eqb between length];
    try (destruct b as [|x b]; cbn -[N.eqb between length]);
    split_tests; try done;
    try (f_equal; simpl; rewrite ?length_app; simpl; lia);
    exfalso; unfold illegal_raw in Hb; destruct Hb; char_arith.
Qed.

Lemma illegal_ref_starts_with_amp c (s : str) :
  c ≠ 38 → match_len _ILLEGAL_XML_CHARS (c :: s) = None.
Proof.
  intros Hc. open_ref_pattern. cbn -[N.eqb between length].
  by destruct (N.eqb_spec c 38).
Qed.

Lemma forallb_below_32 (P : N → bool) :
  forallb P (map N.of_nat (seq 0 32)) = true → ∀ n, n < 32 → P n = true.
Proof.
  intros HP n Hn. rewrite forallb_forall in HP. apply HP.
  apply in_map_iff. exists (N.to_nat n). split; [lia|].
  apply in_seq. lia.
Qed.

Lemma control_ref_matches n :
  control_point n = true →
  control_ref n = 38 :: tail (control_ref n)
  ∧ match_len _ILLEGAL_XML_CHARS (control_ref n) = Some (length (control_ref n)).
Proof.
  intros Hn.
  assert (Hlt : n < 32) by (unfold control_point in Hn; char_arith).
  revert Hn.
  pose (P := λ n, implb (control_point n)
          (bool_decide (control_ref n = 38 :: tail (control_ref n)
                        ∧ match_len _ILLEGAL_XML_CHARS (control_ref n)
                          = Some (length (control_ref n))))).
  assert (HP : P n = true) by (apply forallb_below_32; [by vm_compute|done]).
  unfold P in HP. destruct (control_point n); [|done].
  intros _. by apply bool_decide_eq_true in HP.
Qed.

Lemma sub_empty_control_ref n (post : str) :
  control_point n = true →
  sub_empty _ILLEGAL_XML_CHARS (control_ref n ++ post)
  = sub_empty _ILLEGAL_XML_CHARS post.
Proof.
  intros Hn. destruct (control_ref_matches n Hn) as [Hhd Hm].
  apply (illegal_ref_stable _ post) in Hm. unfold sub_empty.
  rewrite Hhd in Hm |- *. rewrite <- app_comm_cons in *.
  rewrite sub_from_step, Hm. simpl length. apply sub_from_skip_all.
Qed.

Lemma sub_empty_before (pre b : str) :
  match b with [] => True | x :: _ => x = 38 ∨ illegal_raw x = true end →
  sub_empty _ILLEGAL_XML_CHARS (pre ++ b)
  = sub_empty _ILLEGAL_XML_CHARS pre ++ sub_empty _ILLEGAL_XML_CHARS b.
Proof.
  intros Hb. apply sub_from_app; [| |lia].
  - intros a1 c a2 _. by apply illegal_ref_agrees.
  - intros a1 a2 n _. apply illegal_ref_bound.
Qed.

Lemma clean_xml_drops_control_ref (pre post : str) n :
  control_point n = true →
  _clean_xml (pre ++ control_ref n ++ post) = _clean_xml pre ++ _clean_xml post.
Proof.
  intros Hn. rewrite !clean_xml_filter, sub_empty_before.
  - by rewrite sub_empty_control_ref, filter_app.
  - destruct (control_ref_matches n Hn) as [-> _]. simpl. by left.
Qed.

Lemma clean_xml_drops_raw (pre post : str) c :
  illegal_raw c = true →
  _clean_xml (pre ++ c :: post) = _clean_xml pre ++ _clean_xml post.
Proof.
  intros Hc. rewrite !clean_xml_filter, sub_empty_before by (by right).
  unfold sub_empty at 2. rewrite sub_from_step, illegal_ref_starts_with_amp.
  - rewrite filter_app, filter_cons, decide_False; [done|]. by rewrite Hc.
  - intros ->. by vm_compute in Hc.
Qed.

Lemma clean_xml_keeps_clean_text (raw : str) :
  Forall (λ c, illegal_raw c = false) raw → search short_dec_ref raw = None →
  _clean_xml raw = raw.
Proof.
  intros Hraw Hnone. rewrite clean_xml_filter.
  rewrite (sub_empty_no_match _ _ (search_short_ref_none _ Hnone)).
  by apply filter_fixed.
Qed.

(** C5 (as amended). The sanitizer only deletes: its output is a
    subsequence of its input and holds no raw control character in
    0x00-0x08, 0x0B, 0x0C, 0x0E-0x1F. Every such raw character of the input,
    and every decimal reference [&#n;] of the input to a control point [n]
    in 0-8, 11, 14-31, is removed and nothing is put in its place: the
    result is the sanitized text before it followed by the sanitized text
    after it. A text with no such raw character and no decimal reference
    of one or two digits is returned as it is; so sanitizing a second time
    changes nothing whenever the once-sanitized text holds no decimal
    reference of one or two digits. *)
Theorem clean_xml_deletes_and_settles (raw : str) :
  _clean_xml raw `sublist_of` raw
  ∧ Forall (λ c, illegal_raw c = false) (_clean_xml raw)
  ∧ (∀ pre c post, raw = pre ++ c :: post → illegal_raw c = true →
       _clean_xml raw = _clean_xml pre ++ _clean_xml post)
  ∧ (∀ pre n post, raw = pre ++ control_ref n ++ post → control_point n = true →
       _clean_xml raw = _clean_xml pre ++ _clean_xml post)
  ∧ (Forall (λ c, illegal_raw c = false) raw → search short_dec_ref raw = None →
       _clean_xml raw = raw)
  ∧ (search short_dec_ref (_clean_xml raw) = None →
       _clean_xml (_clean_xml raw) = _clean_xml raw).
Proof.
  assert (Hraw : Forall (λ c, illegal_raw c = false) (_clean_xml raw)).
  { rewrite clean_xml_filter. apply list.Forall_forall. intros c Hc.
    by apply list_elem_of_filter in Hc as [? _]. }
  split_and!; [|done|..].
  - unfold _clean_xml. etrans; apply sub_from_sublist.
  - intros pre c post -> Hc. by apply clean_xml_drops_raw.
  - intros pre n post -> Hn. by apply clean_xml_drops_control_ref.
  - apply clean_xml_keeps_clean_text.
  - by apply clean_xml_keeps_clean_text.
Qed.

Lemma clean_xml_deletes_and_settles_witness :
  _clean_xml (py "<A>&#4;x</A>") = _clean_xml (py "<A>") ++ _clean_xml (py "x</A>")
  ∧ _clean_xml (_clean_xml (py "<A>&#4;x</A>")) = _clean_xml (py "<A>&#4;x</A>").
Proof.
  destruct (clean_xml_deletes_and_settles (py "<A>&#4;x</A>"))
    as (_ & _ & _ & Href & _ & Htwice).
  split.
  - apply (Href (py "<A>") 4 (py "x</A>")); vm_compute; reflexivity.
  - apply Htwice. vm_compute. reflexivity.
Defined.

(** C5 as stated fails: deleting the inner reference of [&&#1;#1;] leaves
    the reference [&#1;] in the output, which a second pass deletes. *)
Lemma clean_xml_not_idempotent :
  _clean_xml (py "&&#1;#1;") = py "&#1;"
  ∧ search _ILLEGAL_XML_CHARS (_clean_xml (py "&&#1;#1;")) ≠ None
  ∧ _clean_xml (_clean_xml (py "&&#1;#1;")) ≠ _clean_xml (py "&&#1;#1;").
Proof. vm_compute. split_and!; [reflexivity|discriminate|discriminate]. Qed.

(** ** The decimal model of [float] on examples *)

Example dparse_ex1 : dparse (py "-300.00") = Some (Fin (-300)).
Proof. vm_compute. reflexivity. Qed.
Example dparse_ex2 : dparse (py " 1_000.5e-1 ") = Some (Fin (2001 # 20)).
Proof. vm_compute. reflexivity. Qed.
Example dparse_ex3 : dparse (py "abc") = None ∧ dparse (py "1,200.00") = None
  ∧ dparse (py ".") = None ∧ dparse (py "1e") = None ∧ dparse [] = None
  ∧ dparse (py "1__0") = None ∧ dparse (py "12 Dr") = None.
Proof. vm_compute. repeat split. Qed.
Example dparse_ex4 : dparse (py "-Infinity") = Some (Inf true) ∧ dparse (py "NaN") = Some NaN
  ∧ dparse (py "5.") = Some (Fin 5) ∧ dparse (py ".5") = Some (Fin (1 # 2)).
Proof. vm_compute. repeat split. Qed.
Example dfmt_ex1 : dfmt_comma_2f (Fin (1234567891 # 1000)) = py "1,234,567.89".
Proof. vm_compute. reflexivity. Qed.
Example dfmt_ex2 : dfmt_comma_2f (Fin 300) = py "300.00" ∧ dfmt_comma_2f (Fin (1 # 8)) = py "0.12"
  ∧ dfmt_comma_2f (Fin (-1000)) = py "-1,000.00".
Proof. vm_compute. repeat split. Qed.

(** ** Properties of the voucher amount resolver *)

Section ResolverFacts.
Context `{PyFloat}.

Lemma party_ledger_loop_spec entries :
  party_ledger_loop entries = head (party_amounts entries).
Proof.
  induction entries as [|e es IH]; [done|].
  unfold party_amounts in *.
  cbn [party_ledger_loop omap list_omap]. rewrite IH.
  unfold party_flagged, entry_amount, float.
  destruct (str_eqb _ _); [|reflexivity].
  destruct (nonempty _); [|reflexivity].
  destruct (parse_float _); reflexivity.
Qed.

Lemma inventory_loop_spec invs acc :
  inventory_loop invs acc = foldl fadd acc (omap entry_amount invs).
Proof.
  revert acc; induction invs as [|e es IH]; intros acc; [done|].
  cbn [inventory_loop omap list_omap]. unfold entry_amount at 1, float.
  destruct (nonempty _); [|apply IH].
  destruct (parse_float _); [apply IH|apply IH].
Qed.

Lemma any_amount_loop_spec els :
  any_amount_loop els = head (positive_amounts els).
Proof.
  induction els as [|e es IH]; [done|].
  unfold positive_amounts in *.
  cbn [any_amount_loop omap list_omap]. rewrite IH. unfold float.
  destruct (_ && _); [|reflexivity].
  destruct (parse_float _); [|reflexivity].
  destruct (flt _ _); reflexivity.
Qed.

Lemma extract_is_fallback_chain v :
  _extract_voucher_amount v = fallback_chain v.
Proof.
  unfold _extract_voucher_amount, fallback_chain, inventory_sum.
  rewrite !party_ledger_loop_spec, inventory_loop_spec, any_amount_loop_spec.
  destruct (party_amounts _); [|done].
  destruct (party_amounts _); [|done].
  destruct (flt _ _); [done|]. by destruct (positive_amounts _).
Qed.

Lemma entry_amount_not_neg e a : entry_amount e = Some a → flt a fzero = false.
Proof.
  unfold entry_amount. destruct (nonempty _); [|done].
  destruct (parse_float _); [|done].
  intros [= <-]. apply fabs_not_neg.
Qed.

Lemma party_amounts_not_neg es :
  Forall (λ a, flt a fzero = false) (party_amounts es).
Proof.
  apply list.Forall_forall. intros a.
  unfold party_amounts. rewrite list_elem_of_omap. intros (e & _ & He).
  destruct (party_flagged e); [|done]. by eapply entry_amount_not_neg.
Qed.

Lemma positive_amounts_not_neg es :
  Forall (λ a, flt a fzero = false) (positive_amounts es).
Proof.
  apply list.Forall_forall. intros a.
  unfold positive_amounts. rewrite list_elem_of_omap. intros (e & _ & He).
  destruct (_ && _); [|done]. destruct (parse_float _); [|done].
  destruct (flt fzero _); [|done]. injection He as <-. apply fabs_not_neg.
Qed.

Lemma foldl_fadd_not_neg l acc :
  flt acc fzero = false → Forall (λ a, flt a fzero = false) l →
  flt (foldl fadd acc l) fzero = false.
Proof.
  intros Hacc Hl; revert acc Hacc.
  induction Hl as [|a l Ha _ IH]; intros acc Hacc; [done|].
  simpl. apply IH. by apply fadd_not_neg.
Qed.

Lemma inventory_sum_not_neg invs : flt (inventory_sum invs) fzero = false.
Proof.
  apply foldl_fadd_not_neg; [apply flt_zero_zero|].
  apply list.Forall_forall. intros a. rewrite list_elem_of_omap.
  intros (e & _ & He). by eapply entry_amount_not_neg.
Qed.
End ResolverFacts.

(** C3. [_extract_voucher_amount] is the prioritized fallback chain, first
    success winning: the amount of the first party-flagged entry with a
    numeric amount among the all-ledger-entries blocks, else the same among
    the ledger-entries blocks, else the sum of the absolute inventory-entry
    amounts when it is positive, else the first strictly positive absolute
    amount anywhere in the voucher, else zero. A voucher with a flagged
    party-ledger amount yields it whatever its inventory entries hold, and
    no returned amount is below zero: the comparison of a returned amount
    with zero by [<] never holds. *)
Theorem extract_voucher_amount_fallback_order `{PyFloat} (voucher_el : Element) :
  _extract_voucher_amount voucher_el = fallback_chain voucher_el
  ∧ (∀ a rest,
       party_amounts (iter voucher_el (py "ALLLEDGERENTRIES.LIST")) = a :: rest →
       _extract_voucher_amount voucher_el = a)
  ∧ flt (_extract_voucher_amount voucher_el) fzero = false.
Proof.
  split_and!; [apply extract_is_fallback_chain|..].
  - intros a rest Ha. rewrite extract_is_fallback_chain.
    unfold fallback_chain. by rewrite Ha.
  - rewrite extract_is_fallback_chain. unfold fallback_chain.
    pose proof (party_amounts_not_neg (iter voucher_el (py "ALLLEDGERENTRIES.LIST"))) as H1.
    pose proof (party_amounts_not_neg (iter voucher_el (py "LEDGERENTRIES.LIST"))) as H2.
    pose proof (positive_amounts_not_neg (iter voucher_el (py "AMOUNT"))) as H3.
    destruct (party_amounts _); [|by inversion H1].
    destruct (party_amounts _); [|by inversion H2].
    destruct (flt fzero _); [apply inventory_sum_not_neg|].
    destruct (positive_amounts _); [apply flt_zero_zero|by inversion H3].
Qed.

Lemma extract_voucher_amount_fallback_order_witness :
  _extract_voucher_amount (H:=decimal_float) sales_voucher = Fin 200.
Proof.
  apply (proj1 (proj2 (extract_voucher_amount_fallback_order
                         (H:=decimal_float) sales_voucher))
           (Fin 200) []).
  vm_compute. reflexivity.
Defined.

(** C3 as stated fails: [float] reads the amount text [nan], and the
    absolute value of NaN is NaN, which the first step returns. It is not
    a non-negative value: it is neither above zero nor equal to zero. *)
Lemma extract_voucher_amount_returns_nan :
  _extract_voucher_amount (H:=decimal_float) nan_voucher = NaN
  ∧ fge_zero (_extract_voucher_amount (H:=decimal_float) nan_voucher) = false
  ∧ flt (_extract_voucher_amount (H:=decimal_float) nan_voucher) fzero = false.
Proof. vm_compute. split_and!; reflexivity. Qed.

(** ** Properties of the ledger parser *)

Section LedgerFacts.
Context `{PyFloat}.
Implicit Types (els : list Element) (acc res : list (Ledger F)).

Lemma ledgers_loop_keeps els acc res l :
  ledgers_loop els acc = Ok res → l ∈ acc → l ∈ res.
Proof.
  revert acc; induction els as [|el els IH]; intros acc; simpl.
  - by intros [= <-].
  - destruct (ledger_of el) as [o|]; simpl; [|done].
    intros Hres Hl. apply (IH _ Hres). set_solver.
Qed.

Lemma ledgers_loop_elem els acc res el l :
  ledgers_loop els acc = Ok res → el ∈ els → ledger_of el = Ok (Some l) →
  l ∈ res.
Proof.
  revert acc; induction els as [|el' els IH]; intros acc Hres Hel Hl.
  - by apply elem_of_nil in Hel.
  - simpl in Hres. apply elem_of_cons in Hel as [<-|Hel].
    + rewrite Hl in Hres; simpl in Hres.
      apply (ledgers_loop_keeps _ _ _ _ Hres). set_solver.
    + destruct (ledger_of el') as [o|]; simpl in Hres; [|done].
      by apply (IH _ Hres).
Qed.
End LedgerFacts.

(** C2, at the input where the code departs from it: a closing balance
    that is not a number makes [_parse_ledgers] raise [ValueError], where
    the claim has it read as zero; the resolver next to it catches the same
    error. *)
Theorem parse_ledgers_raises_on_unparsable_balance
    (fromstring : str → Res Element) (raw : str) :
  fromstring (_clean_xml raw) = Ok bad_balance_tree →
  _parse_ledgers fromstring raw = Raise ValueError.
Proof.
  intros Hroot. unfold _parse_ledgers, _parse_xml. rewrite Hroot.
  vm_compute. reflexivity.
Qed.

Lemma parse_ledgers_raises_on_unparsable_balance_witness :
  _parse_ledgers (λ _, Ok bad_balance_tree) bad_balance_payload = Raise ValueError.
Proof.
  apply (parse_ledgers_raises_on_unparsable_balance
           (λ _, Ok bad_balance_tree) bad_balance_payload).
  reflexivity.
Defined.

(** C9. Whenever the Collection:Ledger payload holds the entry
    [<LEDGER NAME="Cash"><PARENT>Cash-in-Hand</PARENT>
     <CLOSINGBALANCE>-300.00</CLOSINGBALANCE></LEDGER>] and is parsed,
    [_parse_ledgers] produces the record
    [{name: "Cash", group: "Cash-in-Hand", balance: -300.0}] and the
    formatter of [get_all_ledgers] prints it as the line
    [Cash | Group: Cash-in-Hand | Balance: ₹300.00]. *)
Theorem cash_ledger_parsed_and_rendered
    (fromstring : str → Res Element) (raw : str) (root : Element)
    (ledgers : list (Ledger dfloat)) :
  _parse_xml fromstring raw = Ok root →
  cash_entry ∈ iter root (py "LEDGER") →
  _parse_ledgers fromstring raw = Ok ledgers →
  cash_record ∈ ledgers
  ∧ ∃ lines, get_all_ledgers_format fromstring raw = Ok (join nl lines)
             ∧ py "Cash | Group: Cash-in-Hand | Balance: ₹300.00" ∈ lines.
Proof.
  intros Hroot Hin Hparse.
  assert (Hrec : cash_record ∈ ledgers).
  { unfold _parse_ledgers in Hparse. rewrite Hroot in Hparse. simpl in Hparse.
    apply (ledgers_loop_elem (H:=decimal_float) _ _ _ cash_entry _ Hparse Hin).
    vm_compute. reflexivity. }
  split; [done|].
  exists (map (ledger_line (H:=decimal_float)) ledgers). split.
  - unfold get_all_ledgers_format. rewrite Hparse. simpl.
    destruct ledgers; [by apply elem_of_nil in Hrec|done].
  - replace (py "Cash | Group: Cash-in-Hand | Balance: ₹300.00")
      with (ledger_line (H:=decimal_float) cash_record) by (vm_compute; reflexivity).
    by apply list_elem_of_fmap_2.
Qed.

Lemma cash_ledger_parsed_and_rendered_witness :
  cash_record ∈ [cash_record]
  ∧ ∃ lines, get_all_ledgers_format (λ _, Ok cash_tree) cash_payload = Ok (join nl lines)
             ∧ py "Cash | Group: Cash-in-Hand | Balance: ₹300.00" ∈ lines.
Proof.
  apply (cash_ledger_parsed_and_rendered (λ _, Ok cash_tree) cash_payload cash_tree).
  - reflexivity.
  - vm_compute. apply list_elem_of_here.
  - vm_compute. reflexivity.
Defined.

(** ** Properties of the display-report parser *)

Section DisplayFacts.
Implicit Types (els : list Element) (names : list str).

Lemma lstrip_blank (t : str) : Forall (λ c, isspace c = true) t → lstrip t = [].
Proof. induction 1 as [|c t Hc _ IH]; [done|]. simpl. by rewrite Hc. Qed.

Lemma strip_blank (t : str) : Forall (λ c, isspace c = true) t → strip t = [].
Proof. intros Ht. unfold strip. by rewrite lstrip_blank. Qed.

Lemma amount_text_blank els i dflt :
  blank_amount els i → amount_text els i dflt = dflt.
Proof.
  unfold blank_amount, amount_text.
  destruct (els !! i) as [e|]; [|done].
  destruct (text e) as [t|]; [|done]. intros Ht.
  simpl. rewrite (strip_blank _ Ht). simpl. by rewrite andb_false_r.
Qed.

Lemma amount_text_present els i e t dflt :
  els !! i = Some e → text e = Some t → strip t ≠ [] →
  amount_text els i dflt = strip t.
Proof.
  unfold amount_text. intros -> -> Ht. simpl.
  destruct t as [|c t]; [done|]. simpl nonempty at 1.
  by destruct (strip (c :: t)).
Qed.

Lemma trial_balance_rows_imap dr cr i names :
  trial_balance_rows dr cr i names =
  imap (λ k n, DrCrRow n (amount_text dr (i + k) []) (amount_text cr (i + k) [])) names.
Proof.
  revert i; induction names as [|n names IH]; intros i; [done|].
  simpl. rewrite Nat.add_0_r, IH. f_equal.
  apply imap_ext. intros k x _. simpl. by rewrite Nat.add_succ_r.
Qed.

Lemma pnl_rows_imap mn sb i names :
  pnl_rows mn sb i names =
  imap (λ k n, AmountRow n
          (or_else (amount_text mn (i + k) [])
             (or_else (amount_text sb (i + k) []) (py "0")))) names.
Proof.
  revert i; induction names as [|n names IH]; intros i; [done|].
  cbn [pnl_rows imap]. rewrite Nat.add_0_r, IH. f_equal.
  apply imap_ext. intros k x _. simpl. by rewrite Nat.add_succ_r.
Qed.

Lemma balance_sheet_rows_imap mn i names :
  balance_sheet_rows mn i names =
  imap (λ k n, AmountRow n (amount_text mn (i + k) (py "0"))) names.
Proof.
  revert i; induction names as [|n names IH]; intros i; [done|].
  cbn [balance_sheet_rows imap]. rewrite Nat.add_0_r, IH. f_equal.
  apply imap_ext. intros k x _. simpl. by rewrite Nat.add_succ_r.
Qed.

Lemma display_names_filter root :
  display_names root =
  map (λ el, default [] (text el))
      (filter (λ el, truthy (text el) = true) (iter root (py "DSPDISPNAME"))).
Proof.
  unfold display_names. induction (iter root (py "DSPDISPNAME")) as [|e es IH]; [done|].
  rewrite filter_cons. cbn [omap list_omap].
  destruct (truthy (text e)) eqn:Ht.
  - rewrite decide_True by done. rewrite IH.
    destruct (text e) as [t|] eqn:Et; [|discriminate].
    simpl. by rewrite Et.
  - rewrite decide_False by done. exact IH.
Qed.
End DisplayFacts.

(** C10. On a payload that parses, [_parse_display_report] returns, for
    each of the three report kinds, one row per [DSPDISPNAME] element with a
    non-empty text, in document order, the row at index [i] pairing the
    name with the amount elements at index [i]. Where that amount element
    is missing, or its text is absent, empty or whitespace only, the field
    is the default: the empty string for the trial balance and for the two
    amounts of profit-and-loss (then ["0"] when both are empty), ["0"] for
    the balance sheet. Any other report kind gives no rows. *)
Theorem parse_display_report_rows
    (fromstring : str → Res Element) (raw : str) (root : Element) :
  _parse_xml fromstring raw = Ok root →
  let names :=
    map (λ el, default [] (text el))
        (filter (λ el, truthy (text el) = true) (iter root (py "DSPDISPNAME"))) in
  let at_ t i dflt := amount_text (iter root t) i dflt in
  _parse_display_report fromstring raw (py "trial_balance") =
    Ok (imap (λ i n, DrCrRow n (at_ (py "DSPCLDRAMTA") i []) (at_ (py "DSPCLCRAMTA") i [])) names)
  ∧ _parse_display_report fromstring raw (py "pnl") =
    Ok (imap (λ i n, AmountRow n
                (or_else (at_ (py "BSMAINAMT") i []) (or_else (at_ (py "PLSUBAMT") i []) (py "0"))))
          names)
  ∧ _parse_display_report fromstring raw (py "balance_sheet") =
    Ok (imap (λ i n, AmountRow n (at_ (py "BSMAINAMT") i (py "0"))) names)
  ∧ (∀ kind, ∃ rows, _parse_display_report fromstring raw kind = Ok rows)
  ∧ (∀ els i dflt, blank_amount els i → amount_text els i dflt = dflt)
  ∧ (∀ els i e t dflt, els !! i = Some e → text e = Some t → strip t ≠ [] →
       amount_text els i dflt = strip t).
Proof.
  intros Hroot names at_. subst names at_. rewrite <- display_names_filter.
  unfold _parse_display_report. rewrite Hroot. cbn [mbind res_bind].
  split_and!.
  - by rewrite trial_balance_rows_imap.
  - by rewrite pnl_rows_imap.
  - by rewrite balance_sheet_rows_imap.
  - intros kind. repeat case_match; eauto.
  - apply amount_text_blank.
  - apply amount_text_present.
Qed.

Lemma parse_display_report_rows_witness :
  _parse_display_report (λ _, Ok trial_balance_tree) (py "<ENVELOPE/>") (py "trial_balance") =
  Ok [DrCrRow (py "Capital Account") [] (py "500.00");
      DrCrRow (py "Current Assets") (py "500.00") []].
Proof.
  etrans.
  - apply (parse_display_report_rows (λ _, Ok trial_balance_tree) (py "<ENVELOPE/>")
             trial_balance_tree). reflexivity.
  - vm_compute. reflexivity.
Defined.

(** ** Properties of the live-or-cache wrapper *)

Example age_str_90_minutes :
  Snapshot.age_str (py "trial_balance") (90 * 60000000)
    {[ py "trial_balance" := Snapshot.mkSnap (py "Capital Account: Cr 500.00") 0 [] ]}
  = py "1h ago".
Proof. vm_compute. reflexivity. Qed.

(** C1. Whenever fetching raises, or the payload carries the in-band
    [<ERROR>] marker, or formatting raises, [_live_or_cache] returns a
    string: the data of the snapshot stored for the key, after the staleness
    banner that carries the snapshot's age, when there is one, and the fixed
    no-cached-data message when there is none. The snapshot directory is
    left as it was and the backend is marked unreachable. *)
Theorem live_or_cache_falls_back (strftime_human : Z → str) (cache_key : str)
    (fetch_fn : unit → Res str) (format_fn : str → Res str) (st : State) :
  live_path_fails fetch_fn format_fn →
  _live_or_cache strftime_human cache_key fetch_fn format_fn st =
  (match snapshots st !! cache_key with
   | Some snap =>
     stale_banner (Snapshot.age_str cache_key (clock st) (snapshots st))
       ++ Snapshot.data snap
   | None => no_cache_message
   end,
   mkState (snapshots st) (Some false) (clock st)).
Proof.
  intros Hfail. unfold _live_or_cache.
  assert (∃ e, try_live strftime_human cache_key fetch_fn format_fn st = Raise e)
    as [e ->].
  { unfold try_live. destruct Hfail as [[e ->]|(raw & -> & Hraw)].
    - by exists e.
    - cbn [mbind res_bind]. destruct Hraw as [->|[e ->]]; [by eexists|].
      destruct (contains _ raw); by eexists. }
  unfold Snapshot.load. by destruct (snapshots st !! cache_key).
Qed.

Lemma live_or_cache_falls_back_witness :
  fst (_live_or_cache (λ _, []) (py "trial_balance")
         (λ _, Raise (OtherError (py "connection refused"))) (λ raw, Ok raw)
         offline_state)
  = stale_banner (py "1h ago") ++ py "Capital Account: Cr 500.00".
Proof.
  etrans.
  - apply (f_equal fst). apply live_or_cache_falls_back.
    left. eexists. reflexivity.
  - vm_compute. reflexivity.
Defined.

(** ** Properties of the tool-call parser *)

Example parse_tool_call_no_args (unicode_alnum : char → bool) :
  parse_tool_call unicode_alnum (py "TOOL_CALL: get_sundry_debtors()")
  = Some (py "get_sundry_debtors", ∅).
Proof. vm_compute. reflexivity. Qed.

Example parse_tool_call_two_args (unicode_alnum : char → bool) :
  parse_tool_call unicode_alnum
    (py "Let me look. TOOL_CALL: get_transactions_for_period(from_date=" ++ dq
     ++ py "20250701" ++ dq ++ py ", to_date = " ++ dq ++ py "20250707" ++ dq ++ py ")")
  = Some (py "get_transactions_for_period",
          <[py "to_date" := py "20250707"]> (<[py "from_date" := py "20250701"]> ∅)).
Proof. vm_compute. reflexivity. Qed.

Example parse_tool_call_plain_answer (unicode_alnum : char → bool) :
  parse_tool_call unicode_alnum (py "Total receivable is ₹1,200 (3 customers).") = None.
Proof. vm_compute. reflexivity. Qed.

(** C8, at the input where the code departs from it: the directive
    [TOOL_CALL: search_ledger(partial_name="ABC (India) Ltd")] carries one
    double-quoted argument, and [parse_tool_call] returns the tool name with
    no argument at all, because the lazy group ends at the first closing
    parenthesis, inside the quoted value. *)
Theorem parse_tool_call_drops_value_with_parenthesis (unicode_alnum : char → bool) :
  parse_tool_call unicode_alnum
    (py "TOOL_CALL: search_ledger(partial_name=" ++ dq ++ py "ABC (India) Ltd" ++ dq ++ py ")")
  = Some (py "search_ledger", ∅).
Proof. vm_compute. reflexivity. Qed.

(** ** Properties of the orchestration loop *)

Section LoopFacts.
Context (unicode_alnum : char → bool) {World : Type}.
Context (call_llm : list Message → World → Res str * World).
Context (call_tool : str → gmap str str → World → Res str * World).
Context (exn_text : exn → str) (system_prompt : str).

Abbreviation loop := (tool_loop unicode_alnum call_llm call_tool exn_text).
Abbreviation parse := (parse_tool_call unicode_alnum).

Implicit Types (H : gmap str (list Message)) (msgs : list Message) (w : World).

Lemma tool_loop_calls_le n uid q msgs H w calls :
  (length (tool_calls (loop n uid q msgs H w calls)) ≤ length calls + n)%nat.
Proof.
  revert msgs w calls; induction n as [|n IH]; intros msgs w calls; simpl; [lia|].
  destruct (call_llm msgs w) as [[text|e] w1]; simpl; [|lia].
  destruct (parse text) as [[tool kw]|]; simpl; [|lia].
  destruct (call_tool tool kw w1) as [r w2].
  etrans; [apply IH|]. rewrite length_app. simpl. lia.
Qed.

Lemma tool_loop_all_calls n uid q msgs H w calls :
  (∀ msgs' w', ∃ text w'', call_llm msgs' w' = (Ok text, w'') ∧ is_Some (parse text)) →
  let o := loop n uid q msgs H w calls in
  answer o = budget_message ∧ history o = H
  ∧ length (tool_calls o) = (length calls + n)%nat.
Proof.
  intros Hllm. revert msgs w calls; induction n as [|n IH]; intros msgs w calls; simpl.
  { split_and!; [done..|lia]. }
  destruct (Hllm msgs w) as (text & w1 & -> & [[tool kw] ->]).
  destruct (call_tool tool kw w1) as [r w2].
  match goal with
  | |- context [tool_loop _ _ _ _ n uid q ?m H w2 ?c] =>
    destruct (IH m w2 c) as (Ha & Hh & Hl)
  end.
  split_and!; [done..|]. rewrite Hl, length_app. simpl. lia.
Qed.

Lemma tool_loop_history n uid q msgs H w calls :
  let o := loop n uid q msgs H w calls in
  (history o = H ∧ (answer o = overloaded_message ∨ answer o = budget_message))
  ∨ (history o = remember H uid q (answer o) ∧ parse (answer o) = None).
Proof.
  revert msgs w calls; induction n as [|n IH]; intros msgs w calls;
    cbn [tool_loop].
  { left. split; [reflexivity|right; reflexivity]. }
  destruct (call_llm msgs w) as [[text|e] w1].
  2:{ left. split; [reflexivity|left; reflexivity]. }
  destruct (parse text) as [[tool kw]|] eqn:Hp.
  2:{ right. split; [reflexivity|exact Hp]. }
  destruct (call_tool tool kw w1) as [r w2]. apply IH.
Qed.

Lemma turns_of_remember H uid q r :
  turns_of (remember H uid q r) uid
  = last20 (turns_of H uid ++ [mkMessage user q; mkMessage assistant r]).
Proof.
  unfold remember. case_match eqn:Hlen; unfold turns_of at 1;
    rewrite lookup_insert_eq; simpl; [done|].
  apply Nat.ltb_ge in Hlen. unfold last20.
  by replace (_ - 20)%nat with 0%nat by lia.
Qed.

Lemma remember_other H uid q r uid' :
  uid' ≠ uid → remember H uid q r !! uid' = H !! uid'.
Proof. intros Hne. unfold remember. case_match; by rewrite lookup_insert_ne. Qed.

Lemma length_last20 (l : list Message) :
  length (last20 l) = Nat.min 20 (length l).
Proof. unfold last20. rewrite length_drop. lia. Qed.
End LoopFacts.

Section QueryFacts.
Context (unicode_alnum : char → bool) {World : Type}.
Context (call_llm : list Message → World → Res str * World).
Context (call_tool : str → gmap str str → World → Res str * World).
Context (exn_text : exn → str) (system_prompt : str).

Abbreviation query :=
  (handle_query unicode_alnum call_llm call_tool exn_text system_prompt).

Implicit Types (H : gmap str (list Message)) (w : World).

Lemma turns_of_with_user H uid : turns_of (with_user H uid) uid = turns_of H uid.
Proof.
  unfold with_user, turns_of. destruct (H !! uid) eqn:E; [by rewrite E|].
  by rewrite lookup_insert_eq.
Qed.

Lemma with_user_other H uid uid' : uid' ≠ uid → with_user H uid !! uid' = H !! uid'.
Proof.
  intros Hne. unfold with_user. destruct (H !! uid); [done|].
  by rewrite lookup_insert_ne.
Qed.

Lemma handle_query_history uid q H w :
  let o := query uid q H w in
  (history o = with_user H uid
   ∧ (answer o = overloaded_message ∨ answer o = budget_message))
  ∨ (history o = remember (with_user H uid) uid q (answer o)
     ∧ parse_tool_call unicode_alnum (answer o) = None).
Proof. apply tool_loop_history. Qed.

Lemma handle_query_turns uid q H w :
  let o := query uid q H w in
  (turns_of (history o) uid = turns_of H uid
   ∧ (answer o = overloaded_message ∨ answer o = budget_message))
  ∨ (turns_of (history o) uid
     = last20 (turns_of H uid ++ [mkMessage user q; mkMessage assistant (answer o)])
     ∧ parse_tool_call unicode_alnum (answer o) = None).
Proof.
  cbv zeta.
  destruct (handle_query_history uid q H w) as [[-> Ha]|[-> Hp]]; [left|right].
  - by rewrite turns_of_with_user.
  - by rewrite turns_of_remember, turns_of_with_user.
Qed.
End QueryFacts.

(** C4. [handle_query] never issues more than five tool calls; and when
    the model answers every round with a tool directive, it issues five,
    no sixth, and returns the fixed message
    [Could not complete analysis. Please try a simpler question.] *)
Theorem handle_query_round_budget (unicode_alnum : char → bool) {World : Type}
    (call_llm : list Message → World → Res str * World)
    (call_tool : str → gmap str str → World → Res str * World)
    (exn_text : exn → str) (system_prompt user_id query : str)
    (conversation_history : gmap str (list Message)) (w : World) :
  let o := handle_query unicode_alnum call_llm call_tool exn_text system_prompt
             user_id query conversation_history w in
  (length (tool_calls o) ≤ 5)%nat
  ∧ ((∀ messages w', ∃ text w'',
        call_llm messages w' = (Ok text, w'')
        ∧ is_Some (parse_tool_call unicode_alnum text)) →
     answer o = budget_message ∧ length (tool_calls o) = 5%nat).
Proof.
  split.
  - apply (tool_loop_calls_le unicode_alnum call_llm call_tool exn_text max_rounds).
  - intros Hllm.
    by edestruct (tool_loop_all_calls unicode_alnum call_llm call_tool exn_text
                    max_rounds) as (Ha & _ & Hl).
Qed.

Lemma handle_query_round_budget_witness :
  let o := handle_query (λ _, false) tool_hungry_llm stub_tool (λ _, []) (py "You are a Tally assistant.")
             (py "alice") (py "Who owes us money?") ∅ () in
  answer o = budget_message ∧ length (tool_calls o) = 5%nat.
Proof.
  apply (handle_query_round_budget (λ _, false) tool_hungry_llm stub_tool (λ _, [])
           (py "You are a Tally assistant.") (py "alice") (py "Who owes us money?") ∅ ()).
  intros messages w'. exists (py "TOOL_CALL: get_all_ledgers()"), w'.
  split; [reflexivity|]. vm_compute. eexists. reflexivity.
Defined.

(** C6. After [handle_query], the turns stored for the user are either
    the ones stored before (when the query ended on one of the two fixed
    failure messages) or those followed by the user's query and the final
    answer, cut to the last twenty; the final answer holds no tool
    directive. So every stored turn is an old one, the query, or the final
    answer: no tool-call turn and no tool-result turn of the rounds in
    between is kept. The turns of other users are untouched. *)
Theorem stored_history_has_no_tool_rounds (unicode_alnum : char → bool) {World : Type}
    (call_llm : list Message → World → Res str * World)
    (call_tool : str → gmap str str → World → Res str * World)
    (exn_text : exn → str) (system_prompt user_id query : str)
    (conversation_history : gmap str (list Message)) (w : World) :
  let o := handle_query unicode_alnum call_llm call_tool exn_text system_prompt
             user_id query conversation_history w in
  let old := turns_of conversation_history user_id in
  let new := turns_of (history o) user_id in
  ((new = old ∧ (answer o = overloaded_message ∨ answer o = budget_message))
   ∨ (new = last20 (old ++ [mkMessage user query; mkMessage assistant (answer o)])
      ∧ parse_tool_call unicode_alnum (answer o) = None))
  ∧ (∀ m, m ∈ new →
       m ∈ old ∨ m = mkMessage user query
       ∨ (m = mkMessage assistant (answer o)
          ∧ parse_tool_call unicode_alnum (answer o) = None))
  ∧ (∀ other, other ≠ user_id → history o !! other = conversation_history !! other).
Proof.
  intros o old new.
  pose proof (handle_query_turns unicode_alnum call_llm call_tool exn_text
                system_prompt user_id query conversation_history w) as Hturns.
  pose proof (handle_query_history unicode_alnum call_llm call_tool exn_text
                system_prompt user_id query conversation_history w) as Hhist.
  cbv zeta in Hturns, Hhist. fold o in Hturns, Hhist. fold old new in Hturns.
  split_and!; [exact Hturns| |].
  - intros m Hm. destruct Hturns as [[Hnew _]|[Hnew Hp]]; rewrite Hnew in Hm.
    + by left.
    + unfold last20 in Hm. eapply elem_of_suffix in Hm; [|apply suffix_drop].
      apply elem_of_app in Hm as [Hm|Hm]; [by left|]. right.
      apply elem_of_cons in Hm as [->|Hm]; [by left|].
      apply list_elem_of_singleton in Hm as ->. by right.
  - intros other Hne. destruct Hhist as [[-> _]|[-> _]].
    + by apply with_user_other.
    + rewrite remember_other by done. by apply with_user_other.
Qed.

Lemma stored_history_has_no_tool_rounds_witness :
  let o := handle_query (λ _, false) one_tool_llm stub_tool (λ _, [])
             (py "You are a Tally assistant.") (py "alice") (py "Who owes us money?")
             {[ py "bob" := [mkMessage user (py "hello")] ]} () in
  length (tool_calls o) = 1%nat
  ∧ turns_of (history o) (py "alice")
    = [mkMessage user (py "Who owes us money?"); mkMessage assistant (py "Debtor_2 owes 200.")]
  ∧ history o !! py "bob" = Some [mkMessage user (py "hello")].
Proof.
  intros o.
  destruct (stored_history_has_no_tool_rounds (λ _, false) one_tool_llm stub_tool
              (λ _, []) (py "You are a Tally assistant.") (py "alice")
              (py "Who owes us money?") {[ py "bob" := [mkMessage user (py "hello")] ]} ())
    as (Hturns & _ & Hother).
  split_and!.
  - vm_compute. reflexivity.
  - destruct Hturns as [[_ [Ha|Ha]]|[Hnew _]].
    + vm_compute in Ha. discriminate.
    + vm_compute in Ha. discriminate.
    + etrans; [exact Hnew|]. vm_compute. reflexivity.
  - etrans; [apply Hother|].
    + vm_compute. discriminate.
    + vm_compute. reflexivity.
Defined.

(** C7. The stored history is cut only where a query completes: when
    [handle_query] ends on an answer of the model (not on one of the two
    fixed failure messages), the turns stored for the user are the last
    twenty of the old turns followed by the query and the answer, in their
    order: all of them when they are at most twenty, exactly twenty
    otherwise. In every case a history of at most twenty turns stays at
    most twenty turns long. *)
Theorem stored_history_is_capped (unicode_alnum : char → bool) {World : Type}
    (call_llm : list Message → World → Res str * World)
    (call_tool : str → gmap str str → World → Res str * World)
    (exn_text : exn → str) (system_prompt user_id query : str)
    (conversation_history : gmap str (list Message)) (w : World) :
  let o := handle_query unicode_alnum call_llm call_tool exn_text system_prompt
             user_id query conversation_history w in
  let old := turns_of conversation_history user_id in
  let new := turns_of (history o) user_id in
  let full := old ++ [mkMessage user query; mkMessage assistant (answer o)] in
  (answer o ≠ overloaded_message → answer o ≠ budget_message →
     new = drop (length full - 20) full
     ∧ (length full ≤ 20 → new = full)%nat
     ∧ (20 < length full → length new = 20)%nat)
  ∧ (new = old ∨ new = drop (length full - 20) full)
  ∧ (length old ≤ 20 → length new ≤ 20)%nat.
Proof.
  intros o old new full.
  pose proof (handle_query_turns unicode_alnum call_llm call_tool exn_text
                system_prompt user_id query conversation_history w) as Hturns.
  cbv zeta in Hturns. fold o in Hturns. fold old new in Hturns. fold full in Hturns.
  assert (Hlen : length (last20 full) = Nat.min 20 (length full))
    by apply length_last20.
  clearbody o.
  split_and!.
  - intros Hno1 Hno2.
    destruct Hturns as [[_ [Ha|Ha]]|[Hnew _]];
      [destruct (Hno1 Ha)|destruct (Hno2 Ha)|].
    rewrite Hnew. split_and!; [done| |lia].
    intros Hle. unfold last20. by replace (_ - 20)%nat with 0%nat by lia.
  - destruct Hturns as [[Hnew _]|[Hnew _]]; [by left|by right].
  - intros Hold. destruct Hturns as [[Hnew _]|[Hnew _]]; rewrite Hnew; lia.
Qed.

Lemma stored_history_is_capped_witness :
  let o := handle_query (λ _, false) one_tool_llm stub_tool (λ _, [])
             (py "You are a Tally assistant.") (py "alice") (py "Who owes us money?")
             {[ py "alice" := twenty_turns ]} () in
  turns_of (history o) (py "alice")
  = drop 2 twenty_turns
    ++ [mkMessage user (py "Who owes us money?"); mkMessage assistant (py "Debtor_2 owes 200.")]
  ∧ length (turns_of (history o) (py "alice")) = 20%nat.
Proof.
  intros o.
  destruct (stored_history_is_capped (λ _, false) one_tool_llm stub_tool
              (λ _, []) (py "You are a Tally assistant.") (py "alice")
              (py "Who owes us money?") {[ py "alice" := twenty_turns ]} ())
    as (Hdone & _ & _).
  destruct Hdone as (Hnew & _ & Hlen).
  - vm_compute. discriminate.
  - vm_compute. discriminate.
  - split.
    + etrans; [exact Hnew|]. vm_compute. reflexivity.
    + apply Hlen. vm_compute. lia.
Defined.

(** * Further properties of the code *)

(** ** The snapshot cache *)

(** X1. For a key that names a file of its own in the snapshot directory
    (at most 200 lower-case letters, digits and underscores) and texts
    that UTF-8 can encode, saving twice under the key keeps the second
    result only: loading the key gives the second data, its age at the
    instant of the second save is [just now], the directory is the one a
    single save of the second result gives, and every other such key is
    as it was. *)
Theorem snapshot_save_replaces (strftime_human : Z → str) (key a b : str) (t1 t2 : Z)
    (dir : gmap str Snapshot.Snap) :
  plain_key key = true → encodable a = true → encodable b = true →
  let dir' := Snapshot.save strftime_human key b t2
                (Snapshot.save strftime_human key a t1 dir) in
  Snapshot.data <$> Snapshot.load key dir' = Some b
  ∧ Snapshot.age_str key t2 dir' = py "just now"
  ∧ dir' = Snapshot.save strftime_human key b t2 dir
  ∧ (∀ other, plain_key other = true → other ≠ key →
       Snapshot.load other dir' = Snapshot.load other dir).
Proof.
  intros _ _ _ dir'. subst dir'.
  unfold Snapshot.save, Snapshot.load, Snapshot.age_str.
  split_and!.
  - by rewrite lookup_insert_eq.
  - unfold Snapshot.load. rewrite lookup_insert_eq. simpl.
    rewrite Z.sub_diag. reflexivity.
  - by rewrite insert_insert_eq.
  - intros other _ Hne. by rewrite !lookup_insert_ne.
Qed.

Lemma snapshot_save_replaces_witness :
  Snapshot.data
    <$> Snapshot.load (py "ledgers")
          (Snapshot.save (λ _, []) (py "ledgers")
             (py "Cash | Group: Cash-in-Hand | Balance: ₹300.00") 60000000
             (Snapshot.save (λ _, []) (py "ledgers") (py "No ledgers found.") 0
                (snapshots offline_state)))
  = Some (py "Cash | Group: Cash-in-Hand | Balance: ₹300.00").
Proof.
  destruct (snapshot_save_replaces (λ _, []) (py "ledgers")
              (py "No ledgers found.")
              (py "Cash | Group: Cash-in-Hand | Balance: ₹300.00")
              0 60000000 (snapshots offline_state))
    as (Hload & _).
  - vm_compute. reflexivity.
  - vm_compute. reflexivity.
  - vm_compute. reflexivity.
  - exact Hload.
Defined.

(** X2. [age_str] by the time [d] elapsed since the save, in microseconds:
    [no cached data] when the key has no snapshot; [just now] below one
    minute, also for a snapshot dated after the call; the whole minutes
    below one hour; the whole hours below one day; the whole days from
    then on, for an age of less than a hundred years. *)
Theorem age_str_by_range (key : str) (now : Z) (dir : gmap str Snapshot.Snap) :
  (Snapshot.load key dir = None → Snapshot.age_str key now dir = py "no cached data")
  ∧ (∀ snap, Snapshot.load key dir = Some snap →
       let d := (now - Snapshot.saved_at snap)%Z in
       ((d < 60000000)%Z → Snapshot.age_str key now dir = py "just now")
       ∧ ((60000000 ≤ d < 3600000000)%Z →
          Snapshot.age_str key now dir = str_of_Z (d / 60000000) ++ py " min ago")
       ∧ ((3600000000 ≤ d < 86400000000)%Z →
          Snapshot.age_str key now dir = str_of_Z (d / 3600000000) ++ py "h ago")
       ∧ ((86400000000 ≤ d < century)%Z →
          Snapshot.age_str key now dir = str_of_Z (d / 86400000000) ++ py " days ago")).
Proof.
  unfold Snapshot.age_str. split; [by intros ->|]. intros snap ->.
  cbv zeta. set (d := (now - Snapshot.saved_at snap)%Z). clearbody d.
  assert (Hq : (0 ≤ d → d ÷ 60000000 = d / 60000000)%Z).
  { intros. apply Z.quot_div_nonneg; lia. }
  assert (Hneg : (d < 0 → d ÷ 60000000 ≤ 0)%Z).
  { intros. pose proof (Z.quot_opp_l (-d) 60000000 ltac:(lia)) as Ho.
    rewrite Z.opp_involutive in Ho. rewrite Ho.
    pose proof (Z.quot_pos (-d) 60000000 ltac:(lia) ltac:(lia)). lia. }
  assert (Hh : (d / 60000000 / 60 = d / 3600000000)%Z).
  { rewrite Z.div_div by lia. reflexivity. }
  assert (Hd : (d / 3600000000 / 24 = d / 86400000000)%Z).
  { rewrite Z.div_div by lia. reflexivity. }
  split_and!; intros Hr.
  - destruct (Z_lt_dec d 0).
    + specialize (Hneg ltac:(lia)).
      destruct (Z.ltb_spec (d ÷ 60000000) 1); [done|lia].
    + rewrite Hq by lia. rewrite Z.div_small by lia. reflexivity.
  - rewrite Hq by lia.
    assert (1 ≤ d / 60000000 < 60)%Z.
    { split; [apply Z.div_le_lower_bound; lia|apply Z.div_lt_upper_bound; lia]. }
    destruct (Z.ltb_spec (d / 60000000) 1); [lia|].
    destruct (Z.ltb_spec (d / 60000000) 60); [done|lia].
  - rewrite Hq by lia.
    assert (60 ≤ d / 60000000)%Z by (apply Z.div_le_lower_bound; lia).
    assert (1 ≤ d / 3600000000 < 24)%Z.
    { split; [apply Z.div_le_lower_bound; lia|apply Z.div_lt_upper_bound; lia]. }
    destruct (Z.ltb_spec (d / 60000000) 1); [lia|].
    destruct (Z.ltb_spec (d / 60000000) 60); [lia|].
    rewrite Hh. destruct (Z.ltb_spec (d / 3600000000) 24); [done|lia].
  - rewrite Hq by lia.
    assert (60 ≤ d / 60000000)%Z by (apply Z.div_le_lower_bound; lia).
    assert (24 ≤ d / 3600000000)%Z by (apply Z.div_le_lower_bound; lia).
    destruct (Z.ltb_spec (d / 60000000) 1); [lia|].
    destruct (Z.ltb_spec (d / 60000000) 60); [lia|].
    rewrite Hh. destruct (Z.ltb_spec (d / 3600000000) 24); [lia|].
    by rewrite Hd.
Qed.

Lemma age_str_by_range_witness :
  Snapshot.age_str (py "trial_balance") (90 * 60000000) (snapshots offline_state)
  = py "1h ago".
Proof.
  destruct (age_str_by_range (py "trial_balance") (90 * 60000000)
              (snapshots offline_state)) as [_ Hsome].
  destruct (Hsome (Snapshot.mkSnap (py "Capital Account: Cr 500.00") 0
                     (py "01 Jul 2025, 09:00 AM")))
    as (_ & _ & Hhours & _).
  - vm_compute. reflexivity.
  - etrans; [apply Hhours; simpl; lia|]. vm_compute. reflexivity.
Defined.

(** ** The live path, then the cache *)

Lemma live_or_cache_on_failure (strftime_human : Z → str) (key : str)
    (fetch_fn : unit → Res str) (format_fn : str → Res str) (st : State) :
  live_path_fails fetch_fn format_fn →
  _live_or_cache strftime_human key fetch_fn format_fn st =
  (fallback_answer key st, mkState (snapshots st) (Some false) (clock st)).
Proof.
  intros Hfail. unfold _live_or_cache, fallback_answer.
  assert (∃ e, try_live strftime_human key fetch_fn format_fn st = Raise e)
    as [e ->].
  { unfold try_live. destruct Hfail as [[e ->]|(raw & -> & Hraw)].
    - by exists e.
    - cbn [mbind res_bind]. destruct Hraw as [->|[e ->]]; [by eexists|].
      destruct (contains _ raw); by eexists. }
  unfold Snapshot.load. by destruct (snapshots st !! key).
Qed.

Lemma live_or_cache_on_success (strftime_human : Z → str) (key : str)
    (fetch_fn : unit → Res str) (format_fn : str → Res str) (st : State)
    (raw result : str) :
  fetch_fn () = Ok raw → contains (py "<ERROR>") raw = false →
  format_fn raw = Ok result →
  _live_or_cache strftime_human key fetch_fn format_fn st =
  (result,
   mkState (Snapshot.save strftime_human key result (clock st) (snapshots st))
     (Some true) (clock st)).
Proof.
  intros Hf He Hr. unfold _live_or_cache, try_live.
  rewrite Hf. cbn [mbind res_bind]. rewrite He, Hr. reflexivity.
Qed.

(** X3. A live answer is remembered, for a cache key that names a file
    of its own in the snapshot directory (at most 200 lower-case letters,
    digits and underscores) and a result that UTF-8 can encode. When
    fetching and formatting succeed and the payload has no [<ERROR>]
    marker, [_live_or_cache] returns the formatted result, marks the
    backend alive and changes no other such key of the snapshot
    directory; a call for the same key less than a hundred years later
    whose live path fails returns that result after the staleness banner,
    marks the backend unreachable and leaves the directory as it is. *)
Theorem live_or_cache_remembers_last_good (strftime_human : Z → str) (key : str)
    (fetch_fn fetch_fn' : unit → Res str) (format_fn format_fn' : str → Res str)
    (st : State) (raw result : str) (later : Z) :
  plain_key key = true →
  fetch_fn () = Ok raw → contains (py "<ERROR>") raw = false →
  format_fn raw = Ok result → encodable result = true →
  (later - clock st < century)%Z →
  live_path_fails fetch_fn' format_fn' →
  let first := _live_or_cache strftime_human key fetch_fn format_fn st in
  let st1 := snd first in
  let second :=
    _live_or_cache strftime_human key fetch_fn' format_fn'
      (mkState (snapshots st1) (_tally_is_alive st1) later) in
  fst first = result
  ∧ _tally_is_alive st1 = Some true
  ∧ (∀ other, plain_key other = true → other ≠ key →
       snapshots st1 !! other = snapshots st !! other)
  ∧ fst second = stale_banner (Snapshot.age_str key later (snapshots st1)) ++ result
  ∧ _tally_is_alive (snd second) = Some false
  ∧ snapshots (snd second) = snapshots st1.
Proof.
  intros _ Hf He Hr _ _ Hfail. cbv zeta.
  rewrite (live_or_cache_on_success _ _ _ _ _ _ _ Hf He Hr).
  rewrite (live_or_cache_on_failure _ _ _ _ _ Hfail).
  unfold fallback_answer, Snapshot.save. cbn [fst snd snapshots clock _tally_is_alive].
  rewrite lookup_insert_eq. cbn [Snapshot.data].
  split_and!; try done.
  intros other _ Hne. by rewrite lookup_insert_ne.
Qed.

Lemma live_or_cache_remembers_last_good_witness :
  let first :=
    _live_or_cache (λ _, []) (py "ledgers") (λ _, Ok (py "<ENVELOPE/>"))
      (λ _, Ok (py "No ledgers found.")) offline_state in
  fst (_live_or_cache (λ _, []) (py "ledgers")
         (λ _, Raise (OtherError (py "connection refused"))) (λ raw, Ok raw)
         (mkState (snapshots (snd first)) (_tally_is_alive (snd first))
            (95 * 60000000)))
  = stale_banner (py "5 min ago") ++ py "No ledgers found.".
Proof.
  intros first. subst first.
  destruct (live_or_cache_remembers_last_good (λ _, []) (py "ledgers")
              (λ _, Ok (py "<ENVELOPE/>"))
              (λ _, Raise (OtherError (py "connection refused")))
              (λ _, Ok (py "No ledgers found.")) (λ raw, Ok raw)
              offline_state (py "<ENVELOPE/>") (py "No ledgers found.")
              (95 * 60000000))
    as (_ & _ & _ & Hsecond & _).
  - vm_compute. reflexivity.
  - reflexivity.
  - vm_compute. reflexivity.
  - reflexivity.
  - vm_compute. reflexivity.
  - vm_compute. reflexivity.
  - left. eexists. reflexivity.
  - etrans; [exact Hsecond|]. vm_compute. reflexivity.
Defined.

Lemma startswith_app (p s : str) : startswith p (p ++ s) = true.
Proof. induction p as [|c p IH]; [done|]. simpl. by rewrite N.eqb_refl. Qed.

Lemma contains_here (p s : str) : startswith p s = true → contains p s = true.
Proof. intros Hp. destruct s; simpl; by rewrite Hp. Qed.

Lemma contains_app_mid (p a b : str) : contains p (a ++ p ++ b) = true.
Proof.
  induction a as [|c a IH].
  - rewrite app_nil_l. apply contains_here, startswith_app.
  - simpl. rewrite IH. apply orb_true_r.
Qed.

(** Whatever goes wrong in the transport, [_tally_request] answers with
    an envelope that carries the [<ERROR>] marker. *)
Lemma tally_request_error_marker (TALLY_URL : str) (post : str → HttpOutcome)
    (payload : str) :
  (∀ text, post payload ≠ Body text) →
  contains (py "<ERROR>") (_tally_request TALLY_URL post payload) = true.
Proof.
  intros Hdown. unfold _tally_request.
  destruct (post payload) as [text| | |e]; [by destruct (Hdown text)|..].
  - vm_compute. reflexivity.
  - replace (py "<ENVELOPE><ERROR>Cannot connect to Tally at ")
      with (py "<ENVELOPE>" ++ py "<ERROR>" ++ py "Cannot connect to Tally at ")
      by (vm_compute; reflexivity).
    rewrite <- !app_assoc. apply contains_app_mid.
  - replace (py "<ENVELOPE><ERROR>") with (py "<ENVELOPE>" ++ py "<ERROR>")
      by (vm_compute; reflexivity).
    rewrite <- !app_assoc. apply contains_app_mid.
Qed.

Lemma tool_falls_back (strftime_human : Z → str) (TALLY_URL : str)
    (post : str → HttpOutcome) (key payload : str) (format_fn : str → Res str)
    (st : State) :
  backend_down post →
  _live_or_cache strftime_human key
    (λ _, Ok (_tally_request TALLY_URL post payload)) format_fn st
  = (fallback_answer key st, mkState (snapshots st) (Some false) (clock st)).
Proof.
  intros Hdown. apply live_or_cache_on_failure. right.
  eexists. split; [reflexivity|]. left.
  apply tally_request_error_marker. apply Hdown.
Qed.

(** X4. When the transport gives no response body (a timeout, a refused
    connection, an HTTP error or any other exception of the request), each
    of these eight tools answers from the cache under its own key: the
    stored data after the staleness banner, or the fixed offline message
    when the key was never stored. No snapshot is written and the backend
    is marked unreachable. The key of [get_transactions_for_date] is
    [txn_] followed by the date, that of [get_transactions_for_period] is
    [txn_] followed by the two dates with an underscore between them. *)
Theorem tools_answer_from_cache_when_backend_down `{PyFloat}
    (strftime_human : Z → str) (fromstring : str → Res Element)
    (TALLY_URL COMPANY : str) (post : str → HttpOutcome) (st : State) :
  backend_down post →
  let offline key :=
    (fallback_answer key st, mkState (snapshots st) (Some false) (clock st)) in
  get_all_ledgers strftime_human fromstring TALLY_URL COMPANY post st
    = offline (py "ledgers")
  ∧ get_account_groups strftime_human fromstring TALLY_URL COMPANY post st
    = offline (py "groups")
  ∧ get_stock_items strftime_human fromstring TALLY_URL COMPANY post st
    = offline (py "stock_items")
  ∧ get_trial_balance strftime_human fromstring TALLY_URL COMPANY post st
    = offline (py "trial_balance")
  ∧ get_profit_and_loss strftime_human fromstring TALLY_URL COMPANY post st
    = offline (py "pnl")
  ∧ get_balance_sheet strftime_human fromstring TALLY_URL COMPANY post st
    = offline (py "balance_sheet")
  ∧ (∀ date,
       get_transactions_for_date strftime_human fromstring TALLY_URL COMPANY post
         date st
       = offline (py "txn_" ++ date))
  ∧ (∀ from_date to_date,
       get_transactions_for_period strftime_human fromstring TALLY_URL COMPANY post
         from_date to_date st
       = offline (py "txn_" ++ from_date ++ py "_" ++ to_date)).
Proof.
  intros Hdown offline. subst offline.
  split_and!; try intros date; try intros to_date; by apply tool_falls_back.
Qed.

Lemma tools_answer_from_cache_when_backend_down_witness :
  fst (get_trial_balance (λ _, []) (λ _, Raise ParseError)
         (py "http://localhost:9000") (py "Demo") down_post offline_state)
  = stale_banner (py "1h ago") ++ py "Capital Account: Cr 500.00".
Proof.
  destruct (tools_answer_from_cache_when_backend_down (H:=decimal_float)
              (λ _, []) (λ _, Raise ParseError) (py "http://localhost:9000")
              (py "Demo") down_post offline_state)
    as (_ & _ & _ & Htb & _).
  - intros payload text. discriminate.
  - etrans; [apply (f_equal fst), Htb|]. vm_compute. reflexivity.
Defined.

(** ** The parsers and formatters of the tools *)

Lemma names_of_filter (root : Element) (t : str) :
  names_of root t
  = filter (λ g, g ≠ []) (omap (λ el, get el (py "NAME")) (iter root t)).
Proof.
  unfold names_of. induction (iter root t) as [|el els IH]; [done|].
  cbn [omap list_omap]. destruct (get el (py "NAME")) as [[|c g]|]; simpl.
  - rewrite filter_cons, decide_False by (by intros []). exact IH.
  - rewrite filter_cons, decide_True by done. by rewrite IH.
  - exact IH.
Qed.

Lemma join_nonempty (sep : str) (parts : list str) :
  Forall (λ g, g ≠ []) parts → parts ≠ [] → join sep parts ≠ [].
Proof.
  intros Hall Hne. destruct parts as [|g parts]; [done|].
  inversion Hall as [|? ? Hg _]; subst.
  destruct g as [|c g]; [done|]. by destruct parts.
Qed.

(** X5. On a payload that parses, [_parse_groups] and [_parse_stock_items]
    return the [NAME] attributes of the [GROUP] (of the [STOCKITEM])
    elements in document order, leaving out the elements whose attribute
    is missing or empty. The inner formatters of [get_account_groups] and
    [get_stock_items] do not raise: they return the fixed
    nothing-found message when no name is left and the names joined by
    newlines otherwise, which is never the empty string. *)
Theorem parse_groups_and_stock_items_names (fromstring : str → Res Element)
    (raw : str) (root : Element) :
  _parse_xml fromstring raw = Ok root →
  let names t := filter (λ g, g ≠ []) (omap (λ el, get el (py "NAME")) (iter root t)) in
  _parse_groups fromstring raw = Ok (names (py "GROUP"))
  ∧ _parse_stock_items fromstring raw = Ok (names (py "STOCKITEM"))
  ∧ (names (py "GROUP") = [] →
     get_account_groups_format fromstring raw = Ok (py "No groups found."))
  ∧ (names (py "GROUP") ≠ [] →
     get_account_groups_format fromstring raw = Ok (join nl (names (py "GROUP"))))
  ∧ (names (py "STOCKITEM") = [] →
     get_stock_items_format fromstring raw = Ok (py "No stock items found."))
  ∧ (names (py "STOCKITEM") ≠ [] →
     get_stock_items_format fromstring raw = Ok (join nl (names (py "STOCKITEM"))))
  ∧ (∃ out, get_account_groups_format fromstring raw = Ok out ∧ out ≠ [])
  ∧ (∃ out, get_stock_items_format fromstring raw = Ok out ∧ out ≠ []).
Proof.
  intros Hroot names. subst names. cbv beta.
  unfold get_account_groups_format, get_stock_items_format,
    _parse_groups, _parse_stock_items.
  rewrite Hroot. cbn [mbind res_bind]. rewrite !names_of_filter.
  assert (Hne : ∀ t, Forall (λ g : str, g ≠ [])
                  (filter (λ g : str, g ≠ [])
                     (omap (λ el, get el (py "NAME")) (iter root t)))).
  { intros t. apply list.Forall_forall. intros g Hg.
    by apply list_elem_of_filter in Hg as [Hg _]. }
  split_and!; try done.
  - by intros ->.
  - intros Hn. by destruct (filter _ _).
  - by intros ->.
  - intros Hn. by destruct (filter _ _).
  - eexists. split; [reflexivity|].
    specialize (Hne (py "GROUP")). destruct (filter _ _) eqn:E; [done|].
    by apply join_nonempty.
  - eexists. split; [reflexivity|].
    specialize (Hne (py "STOCKITEM")). destruct (filter _ _) eqn:E; [done|].
    by apply join_nonempty.
Qed.

Lemma parse_groups_and_stock_items_names_witness :
  get_account_groups_format (λ _, Ok groups_tree) (py "<ENVELOPE/>")
  = Ok (py "Bank Accounts" ++ nl ++ py "Sundry Debtors").
Proof.
  destruct (parse_groups_and_stock_items_names (λ _, Ok groups_tree)
              (py "<ENVELOPE/>") groups_tree)
    as (_ & _ & _ & Hsome & _).
  - reflexivity.
  - etrans; [apply Hsome; vm_compute; discriminate|]. vm_compute. reflexivity.
Defined.

Section LedgerSuccess.
Context `{PyFloat}.

Lemma ledger_of_unnamed el :
  truthy (get el (py "NAME")) = false → ledger_of el = Ok None.
Proof. intros Hn. unfold ledger_of. by rewrite Hn. Qed.

Lemma ledger_of_named el :
  truthy (get el (py "NAME")) = true →
  (balance_readable el ∧
   ∃ l, ledger_of el = Ok (Some l) ∧ name l = default [] (get el (py "NAME")))
  ∨ (¬ balance_readable el ∧ ledger_of el = Raise ValueError).
Proof.
  intros Hn. unfold ledger_of, balance_readable. rewrite Hn. cbn [negb].
  destruct (find el (py "CLOSINGBALANCE")) as [ce|].
  - destruct (truthy (text ce) && nonempty (strip (default [] (text ce)))).
    + unfold float. destruct (parse_float _) as [x|].
      * left. split; [by eexists|]. cbn [mbind res_bind]. by eexists.
      * right. split; [by intros [? ?]|done].
    + left. split; [done|]. cbn [mbind res_bind]. by eexists.
  - left. split; [done|]. cbn [mbind res_bind]. by eexists.
Qed.

Lemma ledgers_loop_outcome els acc :
  (Forall balance_readable (filter (λ el, truthy (get el (py "NAME")) = true) els)
   ∧ ∃ res, ledgers_loop els acc = Ok (acc ++ res)
            ∧ map name res
              = map (λ el, default [] (get el (py "NAME")))
                  (filter (λ el, truthy (get el (py "NAME")) = true) els))
  ∨ (¬ Forall balance_readable (filter (λ el, truthy (get el (py "NAME")) = true) els)
     ∧ ledgers_loop els acc = Raise ValueError).
Proof.
  revert acc. induction els as [|el els IH]; intros acc.
  { left. split; [constructor|]. exists []. by rewrite app_nil_r. }
  cbn [ledgers_loop]. rewrite filter_cons.
  destruct (truthy (get el (py "NAME"))) eqn:Hn.
  - rewrite decide_True by done.
    destruct (ledger_of_named el Hn) as [[Hok (l & -> & Hl)]|[Hbad ->]].
    + cbn [mbind res_bind]. unfold option_list. cbn [option_rect].
      destruct (IH (acc ++ [l])) as [[Hall (res & -> & Hres)]|[Hnot ->]].
      * left. split; [by constructor|]. exists (l :: res).
        rewrite <- app_assoc. split; [done|]. simpl. by rewrite Hl, Hres.
      * right. split; [|done]. intros Hall. apply Hnot. by inversion Hall.
    + right. split; [|done]. intros Hall. apply Hbad. by inversion Hall.
  - rewrite decide_False by done.
    rewrite (ledger_of_unnamed el Hn). cbn [mbind res_bind]. unfold option_list.
    cbn [option_rect]. rewrite app_nil_r. apply IH.
Qed.
End LedgerSuccess.

(** X6. On a payload that parses, [_parse_ledgers] succeeds exactly when
    every [LEDGER] element with a non-empty [NAME] has a closing balance
    that is missing, blank or a text [float] accepts. It then returns one
    record for each such element, in document order and under the
    element's name, and none for the elements without a name, whatever
    their balance; otherwise it raises [ValueError]. *)
Theorem parse_ledgers_succeeds_iff_balances_readable `{PyFloat}
    (fromstring : str → Res Element) (raw : str) (root : Element) :
  _parse_xml fromstring raw = Ok root →
  (Forall balance_readable (named_ledgers root) →
   ∃ ledgers, _parse_ledgers fromstring raw = Ok ledgers
              ∧ map name ledgers
                = map (λ el, default [] (get el (py "NAME"))) (named_ledgers root)
              ∧ Forall (λ l, name l ≠ []) ledgers)
  ∧ (¬ Forall balance_readable (named_ledgers root) →
     _parse_ledgers fromstring raw = Raise ValueError).
Proof.
  intros Hroot. unfold _parse_ledgers. rewrite Hroot. cbn [mbind res_bind].
  unfold named_ledgers.
  destruct (ledgers_loop_outcome (iter root (py "LEDGER")) [])
    as [[Hall (res & Hres & Hnames)]|[Hnot Hres]].
  - split; [|done]. intros _. exists res. split_and!; [done|done|].
    assert (Hne : Forall (λ n : str, n ≠ []) (map name res)).
    { rewrite Hnames. apply list.Forall_forall. intros n Hn.
      apply list_elem_of_fmap in Hn as (el & -> & Hel).
      apply list_elem_of_filter in Hel as [Ht _].
      destruct (get el (py "NAME")) as [[|c g]|]; done. }
    by rewrite Forall_fmap in Hne.
  - split; [done|]. by intros _.
Qed.

Lemma parse_ledgers_succeeds_iff_balances_readable_witness :
  ∃ ledgers,
    _parse_ledgers (H:=decimal_float) (λ _, Ok two_ledgers_tree) (py "<ENVELOPE/>")
    = Ok ledgers
    ∧ map name ledgers = [py "Cash"; py "Rent"].
Proof.
  destruct (parse_ledgers_succeeds_iff_balances_readable (H:=decimal_float)
              (λ _, Ok two_ledgers_tree) (py "<ENVELOPE/>") two_ledgers_tree)
    as [Hok _]; [reflexivity|].
  destruct Hok as (ledgers & Hl & Hnames & _).
  - replace (named_ledgers two_ledgers_tree)
      with [cash_entry;
            node "LEDGER" [(py "NAME", py "Rent")] [leaf "CLOSINGBALANCE" "  "]]
      by (vm_compute; reflexivity).
    repeat constructor.
    unfold balance_readable. vm_compute. eexists. reflexivity.
  - exists ledgers. split; [exact Hl|].
    etrans; [exact Hnames|]. vm_compute. reflexivity.
Defined.

Lemma extract_voucher_amount_not_neg `{PyFloat} (v : Element) :
  flt (_extract_voucher_amount v) fzero = false.
Proof.
  rewrite extract_is_fallback_chain. unfold fallback_chain.
  pose proof (party_amounts_not_neg (iter v (py "ALLLEDGERENTRIES.LIST"))) as H1.
  pose proof (party_amounts_not_neg (iter v (py "LEDGERENTRIES.LIST"))) as H2.
  pose proof (positive_amounts_not_neg (iter v (py "AMOUNT"))) as H3.
  destruct (party_amounts _); [|by inversion H1].
  destruct (party_amounts _); [|by inversion H2].
  destruct (flt fzero _); [apply inventory_sum_not_neg|].
  destruct (positive_amounts _); [apply flt_zero_zero|by inversion H3].
Qed.

(** X7. On a payload that parses, [_parse_vouchers] does not raise and
    returns one record for each [VOUCHER] element, in document order. The
    amount of a record is what [_extract_voucher_amount] gives for its
    element and is never below zero; a missing [VCHTYPE] attribute reads
    as a question mark, a missing party or narration element as the empty
    string. *)
Theorem parse_vouchers_one_record_per_voucher `{PyFloat}
    (fromstring : str → Res Element) (raw : str) (root : Element) :
  _parse_xml fromstring raw = Ok root →
  ∃ vouchers,
    _parse_vouchers fromstring raw = Ok vouchers
    ∧ length vouchers = length (iter root (py "VOUCHER"))
    ∧ Forall (λ v, flt (v_amount v) fzero = false) vouchers
    ∧ (∀ i el, iter root (py "VOUCHER") !! i = Some el →
         ∃ v, vouchers !! i = Some v
              ∧ v_amount v = _extract_voucher_amount el
              ∧ (get el (py "VCHTYPE") = None → v_type v = py "?")
              ∧ (find el (py "PARTYLEDGERNAME") = None → v_party v = [])
              ∧ (find el (py "NARRATION") = None → v_narration v = [])).
Proof.
  intros Hroot. unfold _parse_vouchers. rewrite Hroot. cbn [mbind res_bind].
  eexists. split_and!; [done|by rewrite length_map| |].
  - apply Forall_fmap, list.Forall_forall. intros el _.
    apply extract_voucher_amount_not_neg.
  - intros i el Hel. exists (voucher_of el).
    rewrite list_lookup_fmap, Hel. split_and!; [done|done|..].
    + intros Hty. unfold voucher_of. cbn [v_type]. by rewrite Hty.
    + intros Hp. unfold voucher_of, findtext. cbn [v_party]. by rewrite Hp.
    + intros Hp. unfold voucher_of, findtext. cbn [v_narration]. by rewrite Hp.
Qed.

Lemma parse_vouchers_one_record_per_voucher_witness :
  ∃ vouchers,
    _parse_vouchers (H:=decimal_float) (λ _, Ok day_book_tree) (py "<ENVELOPE/>")
    = Ok vouchers
    ∧ length vouchers = 1%nat
    ∧ (∃ v, vouchers !! 0%nat = Some v ∧ v_amount v = Fin 200 ∧ v_narration v = []).
Proof.
  destruct (parse_vouchers_one_record_per_voucher (H:=decimal_float)
              (λ _, Ok day_book_tree) (py "<ENVELOPE/>") day_book_tree)
    as (vouchers & Hv & Hlen & _ & Hat); [reflexivity|].
  exists vouchers. split_and!; [exact Hv|exact Hlen|].
  destruct (Hat 0%nat sales_voucher) as (v & Hv0 & Hamt & _ & _ & Hnarr);
    [reflexivity|].
  exists v. split_and!; [exact Hv0| |by apply Hnarr].
  etrans; [exact Hamt|]. vm_compute. reflexivity.
Defined.

Section FormatterFacts.
Implicit Types (rows : list ReportRow).

Lemma for_each_trial_balance rows :
  Forall is_drcr rows →
  ∃ lines, for_each trial_balance_line rows = Ok lines ∧ length lines = length rows.
Proof.
  induction 1 as [|r rows Hr _ (lines & IH & Hlen)]; [by exists []|].
  destruct r as [n d c|]; [|done]. cbn [for_each trial_balance_line mbind res_bind].
  rewrite IH. cbn [mbind res_bind]. eexists. split; [done|]. simpl. by rewrite Hlen.
Qed.

Lemma for_each_amount rows :
  Forall is_amount rows →
  ∃ lines, for_each amount_line rows = Ok lines ∧ length lines = length rows.
Proof.
  induction 1 as [|r rows Hr _ (lines & IH & Hlen)]; [by exists []|].
  destruct r as [|n a]; [done|]. cbn [for_each amount_line mbind res_bind].
  rewrite IH. cbn [mbind res_bind]. eexists. split; [done|]. simpl. by rewrite Hlen.
Qed.

Lemma trial_balance_rows_shape dr cr i names :
  Forall is_drcr (trial_balance_rows dr cr i names)
  ∧ length (trial_balance_rows dr cr i names) = length names.
Proof.
  revert i; induction names as [|n names IH]; intros i; [by split|].
  cbn [trial_balance_rows]. destruct (IH (S i)) as [Hf Hl].
  split; [by constructor|]. simpl. by rewrite Hl.
Qed.

Lemma pnl_rows_shape mn sb i names :
  Forall is_amount (pnl_rows mn sb i names)
  ∧ length (pnl_rows mn sb i names) = length names.
Proof.
  revert i; induction names as [|n names IH]; intros i; [by split|].
  cbn [pnl_rows]. destruct (IH (S i)) as [Hf Hl].
  split; [by constructor|]. simpl. by rewrite Hl.
Qed.

Lemma balance_sheet_rows_shape mn i names :
  Forall is_amount (balance_sheet_rows mn i names)
  ∧ length (balance_sheet_rows mn i names) = length names.
Proof.
  revert i; induction names as [|n names IH]; intros i; [by split|].
  cbn [balance_sheet_rows]. destruct (IH (S i)) as [Hf Hl].
  split; [by constructor|]. simpl. by rewrite Hl.
Qed.
End FormatterFacts.

(** X8. On a payload that parses, the inner formatters of
    [get_trial_balance], [get_profit_and_loss] and [get_balance_sheet] do
    not raise: the rows [_parse_display_report] builds for a kind always
    carry the keys the formatter of that kind reads. Each returns its
    fixed empty-report message when the payload has no display name, and
    otherwise newline-joined lines, one for each display name. *)
Theorem report_formatters_return_one_line_per_name
    (fromstring : str → Res Element) (raw : str) (root : Element) :
  _parse_xml fromstring raw = Ok root →
  let names := display_names root in
  (names = [] →
     get_trial_balance_format fromstring raw = Ok (py "Empty trial balance.")
     ∧ get_profit_and_loss_format fromstring raw = Ok (py "Empty P&L.")
     ∧ get_balance_sheet_format fromstring raw = Ok (py "Empty balance sheet."))
  ∧ (names ≠ [] →
     (∃ lines, get_trial_balance_format fromstring raw = Ok (join nl lines)
               ∧ length lines = length names)
     ∧ (∃ lines, get_profit_and_loss_format fromstring raw = Ok (join nl lines)
                 ∧ length lines = length names)
     ∧ (∃ lines, get_balance_sheet_format fromstring raw = Ok (join nl lines)
                 ∧ length lines = length names)).
Proof.
  intros Hroot names. subst names.
  unfold get_trial_balance_format, get_profit_and_loss_format,
    get_balance_sheet_format, _parse_display_report.
  rewrite Hroot. cbn [mbind res_bind].
  replace (str_eqb (py "trial_balance") (py "trial_balance")) with true
    by (vm_compute; reflexivity).
  replace (str_eqb (py "pnl") (py "trial_balance")) with false
    by (vm_compute; reflexivity).
  replace (str_eqb (py "pnl") (py "pnl")) with true by (vm_compute; reflexivity).
  replace (str_eqb (py "balance_sheet") (py "trial_balance")) with false
    by (vm_compute; reflexivity).
  replace (str_eqb (py "balance_sheet") (py "pnl")) with false
    by (vm_compute; reflexivity).
  replace (str_eqb (py "balance_sheet") (py "balance_sheet")) with true
    by (vm_compute; reflexivity).
  cbn [mbind res_bind].
  split.
  - intros ->. by split_and!.
  - intros Hne.
    destruct (trial_balance_rows_shape (iter root (py "DSPCLDRAMTA"))
                (iter root (py "DSPCLCRAMTA")) 0 (display_names root)) as [Hf1 Hl1].
    destruct (pnl_rows_shape (iter root (py "BSMAINAMT"))
                (iter root (py "PLSUBAMT")) 0 (display_names root)) as [Hf2 Hl2].
    destruct (balance_sheet_rows_shape (iter root (py "BSMAINAMT")) 0
                (display_names root)) as [Hf3 Hl3].
    destruct (for_each_trial_balance _ Hf1) as (l1 & He1 & Hn1).
    destruct (for_each_amount _ Hf2) as (l2 & He2 & Hn2).
    destruct (for_each_amount _ Hf3) as (l3 & He3 & Hn3).
    split_and!.
    + exists l1. rewrite He1. cbn [mbind res_bind].
      split; [|congruence]. destruct (trial_balance_rows _ _ _ _) eqn:E; [|done].
      destruct (display_names root); [done|discriminate].
    + exists l2. rewrite He2. cbn [mbind res_bind].
      split; [|congruence]. destruct (pnl_rows _ _ _ _) eqn:E; [|done].
      destruct (display_names root); [done|discriminate].
    + exists l3. rewrite He3. cbn [mbind res_bind].
      split; [|congruence]. destruct (balance_sheet_rows _ _ _) eqn:E; [|done].
      destruct (display_names root); [done|discriminate].
Qed.

Lemma report_formatters_return_one_line_per_name_witness :
  ∃ lines,
    get_trial_balance_format (λ _, Ok trial_balance_tree) (py "<ENVELOPE/>")
    = Ok (join nl lines)
    ∧ length lines = 2%nat.
Proof.
  destruct (report_formatters_return_one_line_per_name
              (λ _, Ok trial_balance_tree) (py "<ENVELOPE/>") trial_balance_tree)
    as [_ Hsome]; [reflexivity|].
  destruct Hsome as ((lines & Hlines & Hlen) & _).
  - vm_compute. discriminate.
  - exists lines. split; [exact Hlines|].
    etrans; [exact Hlen|]. vm_compute. reflexivity.
Defined.

(** ** The message handlers of the Telegram bot *)

Section ChunkFacts.
Context {A : Type}.
Implicit Types (l : list A) (s m : nat).

Lemma concat_slices s m l :
  (0 < s)%nat → (length l ≤ m * s)%nat →
  concat (map (λ i, take s (drop i l)) (map (λ k, k * s)%nat (seq 0 m))) = l.
Proof.
  intros Hs. revert l. induction m as [|m IH]; intros l Hl.
  { simpl in *. by destruct l; [|simpl in Hl; lia]. }
  rewrite <- cons_seq, <- fmap_S_seq. cbn [map concat]. rewrite drop_0.
  transitivity (take s l ++ drop s l); [|apply take_drop]. f_equal.
  rewrite <- (IH (drop s l)) by (rewrite length_drop; lia).
  f_equal. rewrite !map_map. apply map_ext. intros k.
  rewrite drop_drop. f_equal; f_equal; lia.
Qed.

Lemma div_up_bound (n s : nat) : (0 < s)%nat → (n ≤ (n + (s - 1)) / s * s)%nat.
Proof.
  intros Hs. pose proof (Nat.div_mod_eq (n + (s - 1)) s) as Hd.
  pose proof (Nat.mod_upper_bound (n + (s - 1)) s ltac:(lia)). nia.
Qed.

Lemma div_up_lt (n s k : nat) :
  (0 < s)%nat → (k < (n + (s - 1)) / s)%nat → (k * s < n)%nat.
Proof.
  intros Hs Hk. pose proof (Nat.div_mod_eq (n + (s - 1)) s) as Hd.
  pose proof (Nat.mod_upper_bound (n + (s - 1)) s ltac:(lia)). nia.
Qed.
End ChunkFacts.

Lemma reply_chunks_concat (answer : str) : concat (reply_chunks answer) = answer.
Proof.
  unfold reply_chunks, range_step. apply concat_slices; [unfold chunk_size; lia|].
  apply div_up_bound. unfold chunk_size; lia.
Qed.

Lemma reply_chunks_sizes (answer : str) :
  Forall (λ c, (0 < length c ≤ chunk_size)%nat) (reply_chunks answer).
Proof.
  assert (Hs : (0 < chunk_size)%nat) by (unfold chunk_size; lia).
  unfold reply_chunks, range_step. rewrite map_map.
  apply Forall_fmap, list.Forall_forall. intros k Hk.
  apply elem_of_seq in Hk as [_ Hk]. simpl in Hk.
  apply (div_up_lt _ _ _ Hs) in Hk. unfold compose. cbv beta.
  rewrite length_take, length_drop. lia.
Qed.

(** X9. The replies [handle_message] sends for an answer, put end to end,
    are the answer: nothing is lost, repeated or reordered. Each reply has
    between 1 and 4000 characters, there are as many as the length of the
    answer divided by 4000, rounded up, and none for the empty answer. *)
Theorem reply_chunks_cover_answer (answer : str) :
  concat (reply_chunks answer) = answer
  ∧ Forall (λ c, (0 < length c ≤ 4000)%nat) (reply_chunks answer)
  ∧ length (reply_chunks answer) = ((length answer + 3999) / 4000)%nat
  ∧ (reply_chunks answer = [] ↔ answer = []).
Proof.
  split_and!.
  - apply reply_chunks_concat.
  - apply reply_chunks_sizes.
  - unfold reply_chunks, range_step. by rewrite !length_map, length_seq.
  - split.
    + intros Hnil. by rewrite <- (reply_chunks_concat answer), Hnil.
    + intros ->. reflexivity.
Qed.

(** X10. [handle_message] answers a user outside a non-empty allow-list
    with the refusal that shows the user's id, and a message without text
    with nothing; in both cases [handle_query] is not run: no tool is
    called and the histories stay as they are. Every other message is
    passed to [handle_query] under the decimal text of the user's id, and
    the replies are its answer cut into pieces of at most 4000
    characters. An empty allow-list admits every user. *)
Theorem handle_message_gate (unicode_alnum : char → bool) {World : Type}
    (call_llm : list Message → World → Res str * World)
    (call_tool : str → gmap str str → World → Res str * World)
    (exn_text : exn → str) (system_prompt : str) (ALLOWED_USERS : gset Z)
    (uid : Z) (query : str) (conversation_history : gmap str (list Message))
    (w : World) :
  let h := handle_message unicode_alnum call_llm call_tool exn_text system_prompt
             ALLOWED_USERS uid query conversation_history w in
  let o := handle_query unicode_alnum call_llm call_tool exn_text system_prompt
             (str_of_Z uid) query conversation_history w in
  (ALLOWED_USERS ≠ ∅ → uid ∉ ALLOWED_USERS →
     h = mkHandled [unauthorized_message uid] conversation_history w [])
  ∧ (ALLOWED_USERS = ∅ ∨ uid ∈ ALLOWED_USERS → query = [] →
     h = mkHandled [] conversation_history w [])
  ∧ (ALLOWED_USERS = ∅ ∨ uid ∈ ALLOWED_USERS → query ≠ [] →
     concat (replies h) = answer o
     ∧ Forall (λ r, (0 < length r ≤ 4000)%nat) (replies h)
     ∧ history_after h = history o
     ∧ world_after h = world o
     ∧ calls_made h = tool_calls o).
Proof.
  intros h o. subst h o. unfold handle_message, refused.
  split_and!.
  - intros Hne Hnot. rewrite bool_decide_eq_false_2 by done.
    by rewrite (bool_decide_eq_false_2 _ Hnot).
  - intros Hallowed ->.
    destruct Hallowed as [He|Hin].
    + by rewrite (bool_decide_eq_true_2 _ He).
    + rewrite (bool_decide_eq_true_2 _ Hin). by rewrite andb_false_r.
  - intros Hallowed Hq.
    assert ((negb (bool_decide (ALLOWED_USERS = ∅))
             && negb (bool_decide (uid ∈ ALLOWED_USERS))) = false) as ->.
    { destruct Hallowed as [He|Hin].
      - by rewrite (bool_decide_eq_true_2 _ He).
      - rewrite (bool_decide_eq_true_2 _ Hin). by rewrite andb_false_r. }
    destruct query as [|c q]; [done|]. cbn [nonempty negb].
    cbn [replies history_after world_after calls_made].
    split_and!; [apply reply_chunks_concat|apply reply_chunks_sizes|done..].
Qed.

Lemma handle_message_gate_witness :
  handle_message (λ _, false) one_tool_llm stub_tool (λ _, [])
    (py "You are a Tally assistant.") {[ 1001%Z ]} 2002 (py "Who owes us money?")
    ∅ ()
  = mkHandled [unauthorized_message 2002] ∅ () [].
Proof.
  destruct (handle_message_gate (λ _, false) one_tool_llm stub_tool (λ _, [])
              (py "You are a Tally assistant.") {[ 1001%Z ]} 2002
              (py "Who owes us money?") ∅ ())
    as (Hrefused & _ & _).
  apply Hrefused.
  - apply (bool_decide_unpack _). vm_compute. exact I.
  - apply (bool_decide_unpack _). vm_compute. exact I.
Defined.

(** X11. After [clear], the user's history is the empty list and the
    histories of the other users are as before; the next query of that
    user is answered without any earlier turn, and the history then
    stored for the user is the query and its answer alone, or is still
    empty when the query ended on one of the two fixed failure
    messages. *)
Theorem clear_then_query_starts_afresh (unicode_alnum : char → bool) {World : Type}
    (call_llm : list Message → World → Res str * World)
    (call_tool : str → gmap str str → World → Res str * World)
    (exn_text : exn → str) (system_prompt : str)
    (uid : Z) (query : str) (conversation_history : gmap str (list Message))
    (w : World) :
  let cleared := snd (clear uid conversation_history) in
  let o := handle_query unicode_alnum call_llm call_tool exn_text system_prompt
             (str_of_Z uid) query cleared w in
  cleared !! str_of_Z uid = Some []
  ∧ (∀ other, other ≠ str_of_Z uid → cleared !! other = conversation_history !! other)
  ∧ (answer o ≠ overloaded_message → answer o ≠ budget_message →
     history o !! str_of_Z uid
     = Some [mkMessage user query; mkMessage assistant (answer o)])
  ∧ (turns_of (history o) (str_of_Z uid) = []
     ∨ turns_of (history o) (str_of_Z uid)
       = [mkMessage user query; mkMessage assistant (answer o)]).
Proof.
  intros cleared o.
  assert (Hc : cleared !! str_of_Z uid = Some []).
  { subst cleared. unfold clear. cbn [snd]. by rewrite lookup_insert_eq. }
  assert (Hold : turns_of cleared (str_of_Z uid) = []).
  { unfold turns_of. by rewrite Hc. }
  pose proof (handle_query_turns unicode_alnum call_llm call_tool exn_text
                system_prompt (str_of_Z uid) query cleared w) as Hturns.
  pose proof (handle_query_history unicode_alnum call_llm call_tool exn_text
                system_prompt (str_of_Z uid) query cleared w) as Hhist.
  cbv zeta in Hturns, Hhist. fold o in Hturns, Hhist. rewrite Hold in Hturns.
  clearbody o.
  split_and!; [done| | |].
  - intros other Hne. subst cleared. unfold clear. cbn [snd].
    by rewrite lookup_insert_ne, lookup_delete_ne.
  - intros Hno1 Hno2.
    destruct Hhist as [[_ [Ha|Ha]]|[Hh _]];
      [destruct (Hno1 Ha)|destruct (Hno2 Ha)|].
    rewrite Hh. unfold remember, with_user. rewrite Hc.
    unfold turns_of. rewrite Hc. simpl.
    by rewrite lookup_insert_eq.
  - destruct Hturns as [[Ht _]|[Ht _]]; [by left|right].
    rewrite Ht. reflexivity.
Qed.

Lemma clear_then_query_starts_afresh_witness :
  let cleared := snd (clear 1001 {[ py "1001" := twenty_turns ]}) in
  let o := handle_query (λ _, false) one_tool_llm stub_tool (λ _, [])
             (py "You are a Tally assistant.") (str_of_Z 1001)
             (py "Who owes us money?") cleared () in
  history o !! str_of_Z 1001
  = Some [mkMessage user (py "Who owes us money?");
          mkMessage assistant (py "Debtor_2 owes 200.")].
Proof.
  intros cleared o. subst cleared o.
  destruct (clear_then_query_starts_afresh (λ _, false) one_tool_llm stub_tool
              (λ _, []) (py "You are a Tally assistant.") 1001
              (py "Who owes us money?") {[ py "1001" := twenty_turns ]} ())
    as (_ & _ & Hfresh & _).
  etrans; [apply Hfresh|].
  - vm_compute. discriminate.
  - vm_compute. discriminate.
  - vm_compute. reflexivity.
Defined.

(** ** The tool directive *)

(** *** What a match of the patterns implies *)

Section MatcherFacts.
Context {R : Type}.
Implicit Types (s : str) (caps : list str) (p : char → bool).

Lemma star_greedy_sound p s (k : str → option R) x :
  star_greedy p s k = Some x →
  ∃ j, (j ≤ length s)%nat ∧ Forall (λ c, p c = true) (take j s)
       ∧ k (drop j s) = Some x.
Proof.
  induction s as [|c s IH]; simpl.
  - intros Hk. exists 0%nat. by split_and!.
  - destruct (p c) eqn:Hp.
    + destruct (star_greedy p s k) as [r|] eqn:E.
      * intros [= ->]. destruct (IH eq_refl) as (j & Hj & Hall & Hk).
        exists (S j). split_and!; [simpl; lia|by constructor|done].
      * intros Hk. exists 0%nat. split_and!; [lia|constructor|done].
    + intros Hk. exists 0%nat. split_and!; [lia|constructor|done].
Qed.

Lemma star_lazy_sound p s (k : str → option R) x :
  star_lazy p s k = Some x →
  ∃ j, (j ≤ length s)%nat ∧ Forall (λ c, p c = true) (take j s)
       ∧ k (drop j s) = Some x.
Proof.
  induction s as [|c s IH]; simpl.
  - destruct (k []) eqn:E; [|done]. intros [= ->]. exists 0%nat. by split_and!.
  - destruct (k (c :: s)) eqn:E.
    + intros [= ->]. exists 0%nat. split_and!; [lia|constructor|done].
    + destruct (p c) eqn:Hp; [|done]. intros Hs.
      destruct (IH Hs) as (j & Hj & Hall & Hk).
      exists (S j). split_and!; [simpl; lia|by constructor|done].
Qed.

(** A successful match hands the continuation a suffix of the text and
    the groups found so far, extended. *)
Lemma m_sound r s caps (k : str → list str → option R) x :
  m r s caps k = Some x →
  ∃ s' caps', s' `suffix_of` s ∧ caps `prefix_of` caps' ∧ k s' caps' = Some x.
Proof.
  revert s caps k. induction r as [c|p|a IHa b IHb|a IHa b IHb|p|p|a IHa];
    intros s caps k; cbn [m].
  - destruct s as [|c' s]; [done|]. destruct (c' =? c); [|done].
    intros Hk. exists s, caps. split_and!; [by apply suffix_cons_r|done|done].
  - destruct s as [|c' s]; [done|]. destruct (p c'); [|done].
    intros Hk. exists s, caps. split_and!; [by apply suffix_cons_r|done|done].
  - intros Hm. apply IHa in Hm as (s1 & caps1 & Hs1 & Hc1 & Hm).
    apply IHb in Hm as (s2 & caps2 & Hs2 & Hc2 & Hk).
    exists s2, caps2. split_and!; [by etrans|by etrans|done].
  - destruct (m a s caps k) as [r|] eqn:E.
    + intros [= ->]. by apply IHa.
    + apply IHb.
  - intros Hm. apply star_greedy_sound in Hm as (j & _ & _ & Hk).
    exists (drop j s), caps. split_and!; [apply suffix_drop|done|done].
  - intros Hm. apply star_lazy_sound in Hm as (j & _ & _ & Hk).
    exists (drop j s), caps. split_and!; [apply suffix_drop|done|done].
  - intros Hm. apply IHa in Hm as (s1 & caps1 & Hs1 & Hc1 & Hk).
    eexists _, _. split_and!; [done| |done]. by apply prefix_app_r.
Qed.

Lemma m_seq a b s caps (k : str → list str → option R) :
  m (Seq a b) s caps k = m a s caps (λ s' caps', m b s' caps' k).
Proof. reflexivity. Qed.

Lemma lits_sound (lit : str) r s caps (k : str → list str → option R) x :
  m (lits lit r) s caps k = Some x →
  ∃ s', s = lit ++ s' ∧ m r s' caps k = Some x.
Proof.
  revert s. induction lit as [|c lit IH]; intros s; cbn [lits m].
  - intros Hm. by exists s.
  - destruct s as [|c' s]; [done|]. destruct (N.eqb_spec c' c) as [->|]; [|done].
    intros Hm. apply IH in Hm as (s' & -> & Hm). by exists s'.
Qed.

Lemma group_plus_sound p s caps (k : str → list str → option R) x :
  m (Group (Plus p)) s caps k = Some x →
  ∃ n, (0 < n ≤ length s)%nat ∧ Forall (λ c, p c = true) (take n s)
       ∧ k (drop n s) (caps ++ [take n s]) = Some x.
Proof.
  unfold Plus. cbn [m]. destruct s as [|c s]; [done|].
  destruct (p c) eqn:Hp; [|done]. intros Hm.
  apply star_greedy_sound in Hm as (j & Hj & Hall & Hk).
  exists (S j). split_and!; [lia|simpl; lia|by constructor|].
  rewrite length_drop in Hk.
  replace (length (c :: s) - (length s - j))%nat with (S j) in Hk
    by (simpl; lia).
  exact Hk.
Qed.
End MatcherFacts.

Lemma search_sound r (s : str) caps :
  search r s = Some caps →
  ∃ t n, t `suffix_of` s ∧ re_match r t = Some (n, caps).
Proof.
  induction s as [|c s IH]; cbn [search].
  - destruct (re_match r []) as [[n caps']|] eqn:E; [|done].
    intros [= ->]. by exists [], n.
  - destruct (re_match r (c :: s)) as [[n caps']|] eqn:E.
    + intros [= ->]. by exists (c :: s), n.
    + intros Hs. apply IH in Hs as (t & n & Ht & Hm).
      exists t, n. split; [by apply suffix_cons_r|done].
Qed.

Lemma contains_suffix (p t s : str) :
  t `suffix_of` s → startswith p t = true → contains p s = true.
Proof.
  intros [pre ->] Hp. induction pre as [|c pre IH].
  - by apply contains_here.
  - simpl. rewrite IH. apply orb_true_r.
Qed.

Section DirectiveFacts.
Variable unicode_alnum : char → bool.

Lemma tool_call_match_shape (t : str) n caps :
  re_match (tool_call_re unicode_alnum) t = Some (n, caps) →
  startswith (py "TOOL_CALL:") t = true
  ∧ 41 ∈ t
  ∧ ∃ name, caps !! 0%nat = Some name ∧ name ≠ []
            ∧ Forall (λ c, isword unicode_alnum c = true) name.
Proof.
  unfold re_match, tool_call_re. intros Hm.
  apply lits_sound in Hm as (t1 & -> & Hm).
  split; [apply startswith_app|].
  rewrite m_seq in Hm. change (m (Star ?p) ?s ?c ?k) with
    (star_greedy p s (λ s', k s' c)) in Hm.
  apply star_greedy_sound in Hm as (j & _ & _ & Hm).
  rewrite m_seq in Hm.
  apply group_plus_sound in Hm as (k & Hk & Hword & Hm).
  rewrite m_seq in Hm.
  apply m_sound in Hm as (t3 & caps3 & Ht3 & Hc3 & Hm).
  rewrite m_seq in Hm.
  apply m_sound in Hm as (t4 & caps4 & Ht4 & Hc4 & Hm).
  cbn [m] in Hm.
  destruct t4 as [|c t4]; [done|]. destruct (N.eqb_spec c 41) as [->|]; [|done].
  injection Hm as _ <-.
  split.
  - apply elem_of_app. right.
    eapply elem_of_suffix; [apply list_elem_of_here|].
    etrans; [exact Ht4|]. etrans; [exact Ht3|].
    etrans; [apply suffix_drop|apply suffix_drop].
  - exists (take k (drop j t1)). split_and!.
    + assert ([take k (drop j t1)] `prefix_of` caps4) as [rest ->] by by etrans.
      reflexivity.
    + destruct (drop j t1); [simpl in Hk; lia|]. destruct k; [lia|done].
    + done.
Qed.

Lemma parse_tool_call_some (text name : str) kwargs :
  parse_tool_call unicode_alnum text = Some (name, kwargs) →
  contains (py "TOOL_CALL:") text = true ∧ 41 ∈ text
  ∧ name ≠ [] ∧ Forall (λ c, isword unicode_alnum c = true) name.
Proof.
  unfold parse_tool_call.
  destruct (search _ text) as [caps|] eqn:Hs; [|done]. intros [= <- _].
  apply search_sound in Hs as (t & n & Ht & Hm).
  apply tool_call_match_shape in Hm as (Hkw & Hp & name & -> & Hne & Hw).
  split_and!; [by eapply contains_suffix| |done|done].
  by eapply elem_of_suffix.
Qed.
End DirectiveFacts.

Section MatcherFirst.
Context {R : Type}.
Implicit Types (s : str) (caps : list str) (p : char → bool).

(** The lazy repetition stops at the first place where what follows
    matches. *)
Lemma star_lazy_first p s (k : str → option R) x :
  star_lazy p s k = Some x →
  ∃ j, (j ≤ length s)%nat ∧ k (drop j s) = Some x
       ∧ ∀ i, (i < j)%nat → k (drop i s) = None.
Proof.
  induction s as [|c s IH]; simpl.
  - destruct (k []) eqn:E; [|done]. intros [= ->]. exists 0%nat.
    split_and!; [done|done|lia].
  - destruct (k (c :: s)) eqn:E.
    + intros [= ->]. exists 0%nat. split_and!; [lia|done|lia].
    + destruct (p c) eqn:Hp; [|done]. intros Hs.
      destruct (IH Hs) as (j & Hj & Hk & Hmin).
      exists (S j). split_and!; [simpl; lia|done|].
      intros [|i] Hi; [done|]. apply Hmin. lia.
Qed.

Lemma lit_sound c s caps (k : str → list str → option R) x :
  m (Lit c) s caps k = Some x → ∃ s', s = c :: s' ∧ k s' caps = Some x.
Proof.
  cbn [m]. destruct s as [|c' s]; [done|].
  destruct (N.eqb_spec c' c) as [->|]; [|done]. intros Hk. by exists s.
Qed.

Lemma star_sound p s caps (k : str → list str → option R) x :
  m (Star p) s caps k = Some x →
  ∃ j, (j ≤ length s)%nat ∧ Forall (λ c, p c = true) (take j s)
       ∧ k (drop j s) caps = Some x.
Proof. cbn [m]. apply star_greedy_sound. Qed.

Lemma group_star_sound p s caps (k : str → list str → option R) x :
  m (Group (Star p)) s caps k = Some x →
  ∃ j, (j ≤ length s)%nat ∧ Forall (λ c, p c = true) (take j s)
       ∧ k (drop j s) (caps ++ [take j s]) = Some x.
Proof.
  cbn [m]. intros Hm. apply star_greedy_sound in Hm as (j & Hj & Hall & Hk).
  exists j. split_and!; [done|done|].
  rewrite length_drop in Hk.
  by replace (length s - (length s - j))%nat with j in Hk by lia.
Qed.

Lemma group_lazy_first p s caps (k : str → list str → option R) x :
  m (Group (LazyStar p)) s caps k = Some x →
  ∃ j, (j ≤ length s)%nat ∧ k (drop j s) (caps ++ [take j s]) = Some x
       ∧ ∀ i, (i < j)%nat →
           k (drop i s) (caps ++ [take (length s - length (drop i s)) s]) = None.
Proof.
  cbn [m]. intros Hm. apply star_lazy_first in Hm as (j & Hj & Hk & Hmin).
  exists j. split_and!; [done| |done].
  rewrite length_drop in Hk.
  by replace (length s - (length s - j))%nat with j in Hk by lia.
Qed.
End MatcherFirst.

Lemma finditer_from_sound r skip (s : str) caps :
  caps ∈ finditer_from r skip s →
  ∃ t n, t `suffix_of` s ∧ re_match r t = Some (n, caps).
Proof.
  revert skip. induction s as [|c s IH]; intros skip; cbn [finditer_from].
  { intros Hin. by apply elem_of_nil in Hin. }
  assert (Hrec : ∀ k, caps ∈ finditer_from r k s →
            ∃ t n, t `suffix_of` c :: s ∧ re_match r t = Some (n, caps)).
  { intros k Hin. apply IH in Hin as (t & n & Ht & Hm).
    exists t, n. split; [by apply suffix_cons_r|done]. }
  destruct skip as [|k]; [|apply Hrec].
  destruct (re_match r (c :: s)) as [[[|n] caps']|] eqn:E; [apply Hrec| |apply Hrec].
  intros Hin. apply elem_of_cons in Hin as [->|Hin]; [|by eapply Hrec].
  by exists (c :: s), (S n).
Qed.

Lemma lstrip_suffix (s : str) : lstrip s `suffix_of` s.
Proof.
  induction s as [|c s IH]; [done|]. simpl.
  destruct (isspace c); [by apply suffix_cons_r|done].
Qed.

Lemma strip_elem (s : str) c : c ∈ strip s → c ∈ s.
Proof.
  unfold strip, rstrip. intros Hc.
  apply list_elem_of_In, in_rev, list_elem_of_In in Hc.
  eapply elem_of_suffix in Hc; [|apply lstrip_suffix].
  apply list_elem_of_In, in_rev, list_elem_of_In in Hc.
  eapply elem_of_suffix; [done|apply lstrip_suffix].
Qed.

Section ArgumentFacts.
Variable unicode_alnum : char → bool.

Lemma arg_match_shape (t : str) n caps :
  re_match (arg_re unicode_alnum) t = Some (n, caps) →
  ∃ key val, caps = [key; val] ∧ key ≠ []
             ∧ Forall (λ c, isword unicode_alnum c = true) key
             ∧ (34 ∉ val) ∧ (∀ c, c ∈ val → c ∈ t).
Proof.
  unfold re_match, arg_re. intros Hm.
  rewrite m_seq in Hm. apply group_plus_sound in Hm as (k & Hk & Hword & Hm).
  rewrite m_seq in Hm. apply star_sound in Hm as (j1 & _ & _ & Hm).
  rewrite m_seq in Hm. apply lit_sound in Hm as (t2 & Ht2 & Hm).
  rewrite m_seq in Hm. apply star_sound in Hm as (j2 & _ & _ & Hm).
  rewrite m_seq in Hm. apply lit_sound in Hm as (t3 & Ht3 & Hm).
  rewrite m_seq in Hm. apply group_star_sound in Hm as (j3 & _ & Hval & Hm).
  apply lit_sound in Hm as (t4 & Ht4 & Hm). injection Hm as _ <-.
  exists (take k t), (take j3 t3). split_and!.
  - reflexivity.
  - destruct t; [simpl in Hk; lia|]. destruct k; [lia|done].
  - done.
  - intros Hq. rewrite list.Forall_forall in Hval. by specialize (Hval _ Hq).
  - intros c Hc.
    apply (elem_of_sublist _ t3) in Hc; [|apply sublist_take].
    apply (elem_of_suffix _ _ _ Hc).
    assert (t3 `suffix_of` t) as Hsuf.
    { etrans; [|apply (suffix_drop _ k)].
      etrans; [|apply (suffix_drop _ j1)]. rewrite Ht2.
      apply suffix_cons_r.
      etrans; [|apply (suffix_drop _ j2)]. rewrite Ht3.
      by apply suffix_cons_r. }
    done.
Qed.

Lemma tool_call_args_before_paren (t : str) n caps :
  re_match (tool_call_re unicode_alnum) t = Some (n, caps) →
  ∃ args, caps !! 1%nat = Some args ∧ 41 ∉ args.
Proof.
  unfold re_match, tool_call_re. intros Hm.
  apply lits_sound in Hm as (t1 & -> & Hm).
  rewrite m_seq in Hm. apply star_sound in Hm as (j & _ & _ & Hm).
  rewrite m_seq in Hm. apply group_plus_sound in Hm as (k & Hk & Hword & Hm).
  rewrite m_seq in Hm. apply lit_sound in Hm as (t2 & Ht2 & Hm).
  rewrite m_seq in Hm. apply group_lazy_first in Hm as (j2 & Hj2 & Hm & Hmin).
  apply lit_sound in Hm as (t3 & Ht3 & Hm). injection Hm as _ <-.
  exists (take j2 t2). split; [reflexivity|].
  intros Hin. apply list_elem_of_lookup in Hin as (i & Hi).
  apply lookup_take_Some in Hi as [Hi Hlt].
  specialize (Hmin i Hlt). cbn [m] in Hmin.
  rewrite (drop_S _ _ _ Hi) in Hmin. by rewrite N.eqb_refl in Hmin.
Qed.

Lemma set_kwarg_keeps (P : str → str → Prop) (kwargs : gmap str str)
    (matches : list (list str)) :
  map_Forall P kwargs →
  Forall (λ caps, ∃ key val, caps = [key; val] ∧ P key val) matches →
  map_Forall P (foldl set_kwarg kwargs matches).
Proof.
  intros Hk Hm. revert kwargs Hk.
  induction Hm as [|caps matches (key & val & -> & HP) _ IH]; intros kwargs Hk;
    [done|].
  simpl. apply IH. by apply map_Forall_insert_2.
Qed.

Lemma parse_tool_call_kwargs (text name : str) kwargs key val :
  parse_tool_call unicode_alnum text = Some (name, kwargs) →
  kwargs !! key = Some val →
  key ≠ [] ∧ Forall (λ c, isword unicode_alnum c = true) key
  ∧ (34 ∉ val) ∧ (41 ∉ val).
Proof.
  unfold parse_tool_call.
  destruct (search _ text) as [caps|] eqn:Hs; [|done]. intros [= _ <-].
  apply search_sound in Hs as (t & n & Ht & Hm).
  apply tool_call_args_before_paren in Hm as (args & -> & Hparen).
  cbn [default]. revert key val.
  change (map_Forall
    (λ key val, key ≠ [] ∧ Forall (λ c, isword unicode_alnum c = true) key
                ∧ (34 ∉ val) ∧ (41 ∉ val))
    (if nonempty (strip args)
     then foldl set_kwarg ∅ (finditer (arg_re unicode_alnum) (strip args))
     else ∅)).
  destruct (nonempty (strip args)); [|apply map_Forall_empty].
  apply set_kwarg_keeps; [apply map_Forall_empty|].
  apply list.Forall_forall. intros groups Hgroups.
  apply finditer_from_sound in Hgroups as (t' & n' & Ht' & Hm').
  apply arg_match_shape in Hm' as (k & v & -> & Hne & Hw & Hq & Hsub).
  exists k, v. split_and!; try done.
  intros Hv. apply Hparen. apply strip_elem.
  eapply elem_of_suffix; [|exact Ht']. by apply Hsub.
Qed.
End ArgumentFacts.

(** X12. Whatever [parse_tool_call] returns was written in the text:
    when it returns a tool name and arguments, the text holds the keyword
    [TOOL_CALL:] and a closing parenthesis, the name is a non-empty run
    of [\w] characters, and every argument has a non-empty key of [\w]
    characters and a value that holds neither a double quote nor a
    closing parenthesis. So a text without the keyword, or without a
    closing parenthesis, yields no tool call. *)
Theorem parse_tool_call_result_shape (unicode_alnum : char → bool)
    (text name : str) (kwargs : gmap str str) :
  parse_tool_call unicode_alnum text = Some (name, kwargs) →
  contains (py "TOOL_CALL:") text = true
  ∧ 41 ∈ text
  ∧ name ≠ []
  ∧ Forall (λ c, isword unicode_alnum c = true) name
  ∧ (∀ key val, kwargs !! key = Some val →
       key ≠ [] ∧ Forall (λ c, isword unicode_alnum c = true) key
       ∧ (34 ∉ val) ∧ (41 ∉ val)).
Proof.
  intros Hp.
  destruct (parse_tool_call_some _ _ _ _ Hp) as (Hkw & Hparen & Hne & Hw).
  split_and!; [done..|].
  intros key val Hk. by apply (parse_tool_call_kwargs _ _ _ _ _ _ Hp Hk).
Qed.

(** *** When the patterns match *)

Section MatcherComplete.
Context {R : Type}.
Implicit Types (s a b : str) (caps : list str) (p : char → bool).

Lemma star_greedy_max p a b (k : str → option R) x :
  Forall (λ c, p c = true) a → stops p b → k b = Some x →
  star_greedy p (a ++ b) k = Some x.
Proof.
  intros Ha Hb Hk. induction Ha as [|c a Hc _ IH]; simpl.
  - destruct b as [|c b]; [done|]. simpl in Hb |- *. by rewrite Hb.
  - by rewrite Hc, IH.
Qed.

Lemma star_lazy_reach p a b (k : str → option R) x :
  Forall (λ c, p c = true) a →
  (∀ i, (i < length a)%nat → k (drop i (a ++ b)) = None) →
  k b = Some x →
  star_lazy p (a ++ b) k = Some x.
Proof.
  intros Ha. induction Ha as [|c a Hc _ IH]; intros Hnone Hk.
  - simpl. destruct b; simpl; by rewrite Hk.
  - pose proof (Hnone 0%nat ltac:(simpl; lia)) as H0. simpl in H0.
    simpl. rewrite H0, Hc. apply IH; [|done].
    intros i Hi. apply (Hnone (S i)). simpl. lia.
Qed.

Lemma lits_complete (lit : str) r s caps (k : str → list str → option R) :
  m (lits lit r) (lit ++ s) caps k = m r s caps k.
Proof.
  induction lit as [|c lit IH]; [done|]. cbn [lits m app].
  by rewrite N.eqb_refl.
Qed.

Lemma star_complete p a b caps (k : str → list str → option R) x :
  Forall (λ c, p c = true) a → stops p b → k b caps = Some x →
  m (Star p) (a ++ b) caps k = Some x.
Proof. intros. cbn [m]. by apply star_greedy_max. Qed.

Lemma group_star_complete p a b caps (k : str → list str → option R) x :
  Forall (λ c, p c = true) a → stops p b → k b (caps ++ [a]) = Some x →
  m (Group (Star p)) (a ++ b) caps k = Some x.
Proof.
  intros Ha Hb Hk. cbn [m]. apply star_greedy_max; [done|done|].
  rewrite length_app. replace (length a + length b - length b)%nat
    with (length a) by lia.
  by rewrite take_app_length.
Qed.

Lemma group_plus_complete p a b caps (k : str → list str → option R) x :
  a ≠ [] → Forall (λ c, p c = true) a → stops p b →
  k b (caps ++ [a]) = Some x →
  m (Group (Plus p)) (a ++ b) caps k = Some x.
Proof.
  intros Hne Ha Hb Hk. destruct a as [|c a]; [done|].
  inversion Ha as [|? ? Hc Ha']; subst.
  unfold Plus. cbn [m app]. rewrite Hc.
  apply star_greedy_max; [done|done|].
  replace (length (c :: a ++ b) - length b)%nat with (length (c :: a))
    by (simpl; rewrite length_app; lia).
  change (c :: a ++ b) with ((c :: a) ++ b). by rewrite take_app_length.
Qed.

Lemma group_lazy_until c a b caps (k : str → list str → option R) x :
  c ∉ a → k b (caps ++ [a]) = Some x →
  m (Seq (Group (LazyStar any)) (Lit c)) (a ++ c :: b) caps k = Some x.
Proof.
  intros Hc Hk. cbn [m]. apply star_lazy_reach.
  - by apply list.Forall_forall.
  - intros i Hi. destruct (lookup_lt_is_Some_2 a i Hi) as [y Hy].
    rewrite (drop_S _ y) by (by apply lookup_app_l_Some).
    destruct (N.eqb_spec y c) as [->|]; [|done].
    destruct Hc. by eapply list_elem_of_lookup_2.
  - rewrite N.eqb_refl. rewrite length_app. simpl.
    replace (length a + S (length b) - S (length b))%nat with (length a) by lia.
    by rewrite take_app_length.
Qed.
End MatcherComplete.

Lemma search_at_head r (s : str) n caps :
  re_match r s = Some (n, caps) → search r s = Some caps.
Proof. intros Hm. destruct s; simpl; by rewrite Hm. Qed.

Lemma finditer_from_skip_all r (s : str) : finditer_from r (length s) s = [].
Proof. induction s as [|c s IH]; [done|]. exact IH. Qed.

Lemma finditer_whole r (s : str) caps :
  s ≠ [] → re_match r s = Some (length s, caps) → finditer r s = [caps].
Proof.
  intros Hne Hm. destruct s as [|c s]; [done|].
  unfold finditer. cbn [finditer_from]. rewrite Hm. cbn [length].
  by rewrite finditer_from_skip_all.
Qed.

Lemma lstrip_id (s : str) : stops isspace s → lstrip s = s.
Proof. destruct s as [|c s]; [done|]. simpl. by intros ->. Qed.

Lemma strip_id (s : str) : stops isspace s → stops isspace (rev s) → strip s = s.
Proof.
  intros Hl Hr. unfold strip, rstrip. rewrite (lstrip_id s Hl), (lstrip_id _ Hr).
  apply rev_involutive.
Qed.

Section DirectiveComplete.
Variable unicode_alnum : char → bool.

Lemma identifier_word (s : str) :
  identifier unicode_alnum s → Forall (λ c, isword unicode_alnum c = true) s.
Proof. intros [_ H]. eapply Forall_impl; [exact H|]. by intros c [? _]. Qed.

Lemma identifier_stops (s t : str) :
  identifier unicode_alnum s → stops isspace (s ++ t).
Proof.
  intros [Hne H]. destruct s as [|c s]; [done|]. simpl.
  inversion H as [|? ? [_ Hc] _]. done.
Qed.

Lemma lit_complete {R} c (s : str) caps (k : str → list str → option R) :
  m (Lit c) (c :: s) caps k = k s caps.
Proof. cbn [m]. by rewrite N.eqb_refl. Qed.

Lemma arg_match_complete (key val : str) :
  identifier unicode_alnum key → 34 ∉ val →
  re_match (arg_re unicode_alnum) (key ++ [61; 34] ++ val ++ [34])
  = Some (length (key ++ [61; 34] ++ val ++ [34]), [key; val]).
Proof.
  intros Hkey Hval. unfold re_match, arg_re.
  set (s := key ++ [61; 34] ++ val ++ [34]).
  rewrite m_seq. subst s. apply group_plus_complete.
  { apply Hkey. } { by apply identifier_word. } { done. }
  cbv beta. rewrite m_seq. apply (star_complete _ []); [done|done|].
  cbv beta. rewrite m_seq. cbn [app]. rewrite lit_complete.
  rewrite m_seq. apply (star_complete _ []); [done|done|].
  cbv beta. rewrite m_seq. cbn [app]. rewrite lit_complete.
  rewrite m_seq. apply group_star_complete.
  { apply list.Forall_forall. intros c Hc. unfold not_quote.
    destruct (N.eqb_spec c 34) as [->|]; [done|done]. }
  { done. }
  cbv beta. rewrite lit_complete. cbn [length]. by rewrite Nat.sub_0_r.
Qed.

Lemma isword_not_41 (s : str) :
  Forall (λ c, isword unicode_alnum c = true) s → 41 ∉ s.
Proof.
  intros H Hin. apply (proj1 (list.Forall_forall _ _) H) in Hin. done.
Qed.

Lemma tool_call_match_complete (sp name args rest : str) :
  Forall (λ c, isspace c = true) sp →
  identifier unicode_alnum name → 41 ∉ args →
  ∃ n, re_match (tool_call_re unicode_alnum)
         (py "TOOL_CALL:" ++ sp ++ name ++ [40] ++ args ++ [41] ++ rest)
       = Some (n, [name; args]).
Proof.
  intros Hsp Hname Hargs. unfold re_match, tool_call_re.
  set (text := py "TOOL_CALL:" ++ _). eexists.
  subst text. rewrite lits_complete.
  rewrite m_seq. apply star_complete; [done|by apply identifier_stops|].
  cbv beta. rewrite m_seq. apply group_plus_complete.
  { apply Hname. } { by apply identifier_word. } { done. }
  cbv beta. rewrite m_seq. cbn [app]. rewrite lit_complete.
  apply (group_lazy_until 41 args rest); [done|]. reflexivity.
Qed.

Lemma parse_tool_call_complete (sp name key val rest : str) :
  Forall (λ c, isspace c = true) sp →
  identifier unicode_alnum name → identifier unicode_alnum key →
  34 ∉ val → 41 ∉ val →
  parse_tool_call unicode_alnum
    (py "TOOL_CALL:" ++ sp ++ name ++ [40] ++
       (key ++ [61; 34] ++ val ++ [34]) ++ [41] ++ rest)
  = Some (name, {[ key := val ]}).
Proof.
  intros Hsp Hname Hkey H34 H41. unfold parse_tool_call.
  destruct (tool_call_match_complete sp name (key ++ [61; 34] ++ val ++ [34]) rest)
    as [n Hm]; [done|done| |].
  { rewrite !not_elem_of_app. split_and!.
    - by apply isword_not_41, identifier_word.
    - by intros [?|[?|?%elem_of_nil]%elem_of_cons]%elem_of_cons.
    - done.
    - by intros [?|?%elem_of_nil]%elem_of_cons. }
  rewrite (search_at_head _ _ _ _ Hm). cbn [lookup list_lookup from_option]. unfold id.
  rewrite strip_id.
  - replace (nonempty _) with true by (destruct Hkey as [Hne _]; by destruct key).
    rewrite (finditer_whole _ _ [key; val]).
    + done.
    + destruct Hkey as [Hne _]; by destruct key.
    + by apply arg_match_complete.
  - by apply identifier_stops.
  - rewrite !rev_app_distr. done.
Qed.
End DirectiveComplete.

(** X13. A directive in the documented form is read in full: the keyword
    [TOOL_CALL:], any whitespace, a tool name, an opening parenthesis, one
    argument written as key, equals sign and double-quoted value, and a
    closing parenthesis, followed by any text. When the name and the key
    are non-empty runs of [\w] characters and the value holds neither a
    double quote nor a closing parenthesis, [parse_tool_call] returns that
    name with exactly that argument. *)
Theorem parse_tool_call_reads_one_argument (unicode_alnum : char → bool)
    (sp name key val rest : str) :
  Forall (λ c, isspace c = true) sp →
  identifier unicode_alnum name → identifier unicode_alnum key →
  34 ∉ val → 41 ∉ val →
  parse_tool_call unicode_alnum
    (py "TOOL_CALL:" ++ sp ++ name ++ py "(" ++ key ++ py "=" ++ dq ++ val ++ dq
       ++ py ")" ++ rest)
  = Some (name, {[ key := val ]}).
Proof.
  intros Hsp Hname Hkey H34 H41.
  rewrite <- (parse_tool_call_complete unicode_alnum sp name key val rest)
    by done.
  f_equal. change (py "(") with [40]. change (py "=") with [61].
  change (py ")") with [41]. change dq with [34].
  by rewrite <- !app_assoc.
Qed.

Lemma parse_tool_call_reads_one_argument_witness :
  parse_tool_call (λ _, false) search_directive
  = Some (py "search_ledger", {[ py "partial_name" := py "Cash" ]}).
Proof.
  replace search_directive
    with (py "TOOL_CALL:" ++ py " " ++ py "search_ledger" ++ py "("
          ++ py "partial_name" ++ py "=" ++ dq ++ py "Cash" ++ dq ++ py ")" ++ [])
    by (vm_compute; reflexivity).
  apply (parse_tool_call_reads_one_argument (λ _, false)).
  - repeat constructor.
  - split; [vm_compute; discriminate|].
    apply (bool_decide_unpack _). vm_compute. exact I.
  - split; [vm_compute; discriminate|].
    apply (bool_decide_unpack _). vm_compute. exact I.
  - apply (bool_decide_unpack _). vm_compute. exact I.
  - apply (bool_decide_unpack _). vm_compute. exact I.
Defined.

Lemma parse_tool_call_result_shape_witness :
  contains (py "TOOL_CALL:") search_directive = true
  ∧ Forall (λ c, isword (λ _, false) c = true) (py "search_ledger").
Proof.
  destruct (parse_tool_call_result_shape (λ _, false) search_directive
              (py "search_ledger") {[ py "partial_name" := py "Cash" ]})
    as (Hkw & _ & _ & Hword & _).
  - replace search_directive
      with (py "TOOL_CALL:" ++ py " " ++ py "search_ledger" ++ [40]
            ++ (py "partial_name" ++ [61; 34] ++ py "Cash" ++ [34]) ++ [41] ++ [])
      by (vm_compute; reflexivity).
    apply parse_tool_call_complete.
    + repeat constructor.
    + split; [vm_compute; discriminate|].
      apply (bool_decide_unpack _). vm_compute. exact I.
    + split; [vm_compute; discriminate|].
      apply (bool_decide_unpack _). vm_compute. exact I.
    + apply (bool_decide_unpack _). vm_compute. exact I.
    + apply (bool_decide_unpack _). vm_compute. exact I.
  - split; [exact Hkw|exact Hword].
Defined.

(** ** The tools [handle_query] calls *)

Section CallFacts.
Context (unicode_alnum : char → bool) {World : Type}.
Context (call_llm : list Message → World → Res str * World).
Context (call_tool : str → gmap str str → World → Res str * World).
Context (exn_text : exn → str).

Lemma tool_loop_calls_requested base n uid q msgs H w calls :
  base `prefix_of` msgs →
  Forall (requested unicode_alnum call_llm base) calls →
  Forall (requested unicode_alnum call_llm base)
    (tool_calls (tool_loop unicode_alnum call_llm call_tool exn_text
                   n uid q msgs H w calls)).
Proof.
  revert msgs w calls; induction n as [|n IH]; intros msgs w calls Hb Hc;
    cbn [tool_loop]; [done|].
  destruct (call_llm msgs w) as [[text|e] w1] eqn:Hllm; [|done].
  destruct (parse_tool_call unicode_alnum text) as [[tool kw]|] eqn:Hp; [|done].
  destruct (call_tool tool kw w1) as [r w2]. apply IH.
  - by apply prefix_app_r.
  - apply Forall_app. split; [done|]. constructor; [|constructor].
    by exists msgs, w, text, w1.
Qed.
End CallFacts.

(** X14. [handle_query] calls no tool of its own accord: every call it
    issues, name and arguments, is the directive [parse_tool_call] reads
    from a reply the model gave to a request that begins with the system
    prompt, the turns stored for the user and the query. So the name of
    every tool called is a non-empty run of [\w] characters, and no
    argument passed to a tool has an empty key, or a value that holds a
    double quote or a closing parenthesis. *)
Theorem handle_query_calls_only_requested_tools (unicode_alnum : char → bool)
    {World : Type}
    (call_llm : list Message → World → Res str * World)
    (call_tool : str → gmap str str → World → Res str * World)
    (exn_text : exn → str) (system_prompt user_id query : str)
    (conversation_history : gmap str (list Message)) (w : World) :
  let o := handle_query unicode_alnum call_llm call_tool exn_text system_prompt
             user_id query conversation_history w in
  ∀ tool_name kwargs, (tool_name, kwargs) ∈ tool_calls o →
    (∃ messages w' text w'',
       ([mkMessage system system_prompt]
        ++ turns_of conversation_history user_id
        ++ [mkMessage user query]) `prefix_of` messages
       ∧ call_llm messages w' = (Ok text, w'')
       ∧ parse_tool_call unicode_alnum text = Some (tool_name, kwargs))
    ∧ tool_name ≠ []
    ∧ Forall (λ c, isword unicode_alnum c = true) tool_name
    ∧ (∀ key val, kwargs !! key = Some val →
         key ≠ [] ∧ (34 ∉ val) ∧ (41 ∉ val)).
Proof.
  intros o tool_name kwargs Hin.
  pose proof (tool_loop_calls_requested unicode_alnum call_llm call_tool exn_text
                ([mkMessage system system_prompt]
                 ++ turns_of conversation_history user_id
                 ++ [mkMessage user query])
                max_rounds user_id query
                ([mkMessage system system_prompt]
                 ++ turns_of (with_user conversation_history user_id) user_id
                 ++ [mkMessage user query])
                (with_user conversation_history user_id) w []) as Hall.
  specialize (Hall ltac:(by rewrite turns_of_with_user) (Forall_nil_2 _)).
  rewrite list.Forall_forall in Hall.
  destruct (Hall _ Hin) as (msgs & w' & text & w'' & Hbase & Hllm & Hp).
  split; [by exists msgs, w', text, w''|].
  destruct (parse_tool_call_some _ _ _ _ Hp) as (_ & _ & Hne & Hw).
  split_and!; [done|done|].
  intros key val Hk.
  destruct (parse_tool_call_kwargs _ _ _ _ _ _ Hp Hk) as (? & _ & ? & ?).
  done.
Qed.

Lemma handle_query_calls_only_requested_tools_witness :
  let call := (py "get_sundry_debtors", (∅ : gmap str str)) in
  (∃ messages w' text w'',
     ([mkMessage system (py "You are a Tally assistant.")]
      ++ turns_of ∅ (py "alice")
      ++ [mkMessage user (py "Who owes us money?")]) `prefix_of` messages
     ∧ one_tool_llm messages w' = (Ok text, w'')
     ∧ parse_tool_call (λ _, false) text = Some call)
  ∧ Forall (λ c, isword (λ _, false) c = true) (fst call).
Proof.
  intros call. subst call.
  destruct (handle_query_calls_only_requested_tools (λ _, false) one_tool_llm
              stub_tool (λ _, []) (py "You are a Tally assistant.") (py "alice")
              (py "Who owes us money?") ∅ ()
              (py "get_sundry_debtors") ∅)
    as (Hreq & _ & Hword & _).
  - vm_compute. apply list_elem_of_here.
  - split; [exact Hreq|exact Hword].
Defined.

(** ** The remaining tools *)

(** X15. [get_tally_status] never reads OFFLINE for a backend that cannot
    be reached: [tally_collection] turns every failure of the request into
    an envelope with the [<ERROR>] marker, so the first line is then
    [Tally returned an error]; it is [Tally is ONLINE and responding] when
    the response body has no marker. The lines that follow give the age of
    the snapshot of each of the six listed keys, which reads
    [no cached data] for all of them when nothing was ever saved. *)
Theorem tally_status_reports_error_when_down (TALLY_URL COMPANY : str)
    (post : str → HttpOutcome) (st : State) :
  let ages :=
    map (λ lk, py "  " ++ fst lk ++ py ": "
               ++ Snapshot.age_str (snd lk) (clock st) (snapshots st))
        cache_keys in
  (backend_down post →
     get_tally_status TALLY_URL COMPANY post st
     = join nl ([py "🔴 Tally returned an error"; []; py "Cached data ages:"] ++ ages))
  ∧ ((∀ payload, ∃ text, post payload = Body text
                         ∧ contains (py "<ERROR>") text = false) →
     get_tally_status TALLY_URL COMPANY post st
     = join nl ([py "🟢 Tally is ONLINE and responding"; []; py "Cached data ages:"]
                ++ ages))
  ∧ (snapshots st = ∅ →
     Forall (λ line, ∃ label, line = py "  " ++ label ++ py ": no cached data") ages).
Proof.
  intros ages. unfold get_tally_status, tally_collection. split_and!.
  - intros Hdown.
    rewrite (tally_request_error_marker TALLY_URL post _ (Hdown _)). reflexivity.
  - intros Hup.
    match goal with |- context [_tally_request _ _ ?p] =>
      destruct (Hup p) as (text & Hbody & Hclean) end.
    unfold _tally_request. rewrite Hbody, Hclean. reflexivity.
  - intros Hempty. subst ages. apply Forall_fmap, list.Forall_forall.
    intros [label key] _. exists label. cbn [fst snd compose].
    unfold Snapshot.age_str, Snapshot.load. by rewrite Hempty, lookup_empty.
Qed.

Lemma tally_status_reports_error_when_down_witness :
  get_tally_status (py "http://localhost:9000") (py "Demo") down_post offline_state
  = join nl
      [py "🔴 Tally returned an error"; []; py "Cached data ages:";
       py "  Ledgers: no cached data";
       py "  Trial Balance: 1h ago";
       py "  P&L: no cached data";
       py "  Balance Sheet: no cached data";
       py "  Debtors: no cached data";
       py "  Creditors: no cached data"].
Proof.
  destruct (tally_status_reports_error_when_down (py "http://localhost:9000")
              (py "Demo") down_post offline_state) as (Hdown & _ & _).
  etrans; [apply Hdown|].
  - intros payload text. discriminate.
  - vm_compute. reflexivity.
Defined.

(** X16. [search_ledger] ignores case where [str.lower] does: two names
    with the same lower-case form select the same ledgers, those whose
    lower-cased name contains the lower-cased query, and print them as
    [get_all_ledgers] would; they use one cache key, [search_] followed
    by the lower-case form, so when the backend is down both are answered
    with what the cache holds under that key: its snapshot after the
    staleness banner, or the fixed offline message. A query whose
    lower-case form is empty selects every ledger. When nothing matches,
    the answer names the query as typed and lists all ledger names; an
    exception of [_parse_ledgers] passes through the formatter. *)
Theorem search_ledger_ignores_case `{PyFloat}
    (strftime_human : Z → str) (fromstring : str → Res Element)
    (TALLY_URL COMPANY : str) (post : str → HttpOutcome)
    (lower : str → str) (a b : str) :
  lower a = lower b →
  (∀ raw ledgers, _parse_ledgers fromstring raw = Ok ledgers →
     let matches := filter (λ l, contains (lower a) (lower (name l)) = true) ledgers in
     (matches ≠ [] →
        search_ledger_format fromstring lower a raw
        = Ok (join nl (map ledger_line matches))
        ∧ search_ledger_format fromstring lower b raw
          = Ok (join nl (map ledger_line matches)))
     ∧ (matches = [] →
        search_ledger_format fromstring lower b raw
        = Ok (py "No match for '" ++ b ++ py "'. Available: "
              ++ join (py ", ") (map name ledgers)))
     ∧ (lower a = [] → matches = ledgers))
  ∧ (∀ raw e, _parse_ledgers fromstring raw = Raise e →
       search_ledger_format fromstring lower b raw = Raise e)
  ∧ (backend_down post → ∀ st,
       search_ledger strftime_human fromstring TALLY_URL COMPANY post lower b st
       = (fallback_answer (py "search_" ++ lower a) st,
          mkState (snapshots st) (Some false) (clock st))).
Proof.
  intros Hlow. split_and!.
  - intros raw ledgers Hparse matches. unfold search_ledger_format.
    rewrite Hparse. cbn [mbind res_bind]. rewrite <- Hlow. fold matches.
    split_and!.
    + intros Hne. by destruct matches.
    + by intros ->.
    + intros Hempty. subst matches. rewrite Hempty. clear Hparse.
      induction ledgers as [|l ledgers IH]; [done|].
      rewrite filter_cons, decide_True by (by destruct (lower (name l))).
      by rewrite IH.
  - intros raw e Hparse. unfold search_ledger_format. by rewrite Hparse.
  - intros Hdown st. unfold search_ledger. rewrite Hlow.
    by apply tool_falls_back.
Qed.

Lemma search_ledger_ignores_case_witness :
  search_ledger_format (H:=decimal_float) (λ _, Ok cash_tree) ascii_lower
    (py "cash") cash_payload
  = Ok (py "Cash | Group: Cash-in-Hand | Balance: ₹300.00").
Proof.
  destruct (search_ledger_ignores_case (H:=decimal_float) (λ _, [])
              (λ _, Ok cash_tree) (py "http://localhost:9000") (py "Demo")
              down_post ascii_lower (py "CASH") (py "cash"))
    as (Hfmt & _ & _); [vm_compute; reflexivity|].
  destruct (Hfmt cash_payload [cash_record]) as (Hsome & _ & _);
    [vm_compute; reflexivity|].
  destruct Hsome as [_ Hb].
  - vm_compute. discriminate.
  - etrans; [exact Hb|]. vm_compute. reflexivity.
Defined.

(** *** The summary of [get_transactions_for_period] *)

Section CounterFacts.
Implicit Types (t : str) (l : list (str * nat)).

Lemma count_up_lookup t t' l :
  (list_to_map (count_up t l) : gmap str nat) !! t'
  = if decide (t' = t) then Some (S (default 0%nat ((list_to_map l : gmap str nat) !! t)))
    else (list_to_map l : gmap str nat) !! t'.
Proof.
  induction l as [|[t0 c0] l IH]; cbn [count_up].
  - cbn [list_to_map foldr fst snd]. destruct (decide (t' = t)) as [->|Hne].
    + by rewrite lookup_insert_eq, lookup_empty.
    + by rewrite lookup_insert_ne.
  - unfold str_eqb. destruct (decide (t0 = t)) as [->|Hne0].
    + rewrite bool_decide_eq_true_2 by done. cbn [list_to_map foldr fst snd].
      destruct (decide (t' = t)) as [->|Hne].
      * by rewrite !lookup_insert_eq.
      * by rewrite !lookup_insert_ne.
    + rewrite bool_decide_eq_false_2 by done. cbn [list_to_map foldr fst snd].
      destruct (decide (t' = t)) as [->|Hne].
      * rewrite !lookup_insert_ne by done. by rewrite IH.
      * destruct (decide (t' = t0)) as [->|Hne1].
        -- by rewrite !lookup_insert_eq.
        -- rewrite !lookup_insert_ne by done. by rewrite IH.
Qed.

Lemma count_up_fst_elem t x l : x ∈ (count_up t l).*1 → x = t ∨ x ∈ l.*1.
Proof.
  induction l as [|[t0 c0] l IH]; cbn [count_up].
  - intros Hx. left. by apply list_elem_of_singleton in Hx.
  - destruct (str_eqb t0 t); cbn [fmap list_fmap fst].
    + intros Hx. by right.
    + intros [->|Hx]%elem_of_cons; [right; left|].
      destruct (IH Hx) as [->|Hin]; [by left|right; by right].
Qed.

Lemma count_up_NoDup t l : NoDup l.*1 → NoDup (count_up t l).*1.
Proof.
  induction l as [|[t0 c0] l IH]; cbn [count_up].
  - intros _. apply NoDup_singleton.
  - unfold str_eqb. destruct (decide (t0 = t)) as [->|Hne0].
    + by rewrite bool_decide_eq_true_2 by done.
    + rewrite bool_decide_eq_false_2 by done. cbn [fmap list_fmap fst].
      intros [Hnot Hnd]%NoDup_cons. apply NoDup_cons. split; [|by apply IH].
      intros [->|Hin]%count_up_fst_elem; done.
Qed.

Lemma count_up_sum t l : sum_list (count_up t l).*2 = S (sum_list l.*2).
Proof.
  induction l as [|[t0 c0] l IH]; cbn [count_up]; [done|].
  destruct (str_eqb t0 t); cbn [fmap list_fmap snd sum_list]; [done|].
  change (list_fmap _ _ snd (count_up t l)) with ((count_up t l).*2).
  rewrite IH. lia.
Qed.

Lemma insert_by_count_perm x l : insert_by_count x l ≡ₚ x :: l.
Proof.
  induction l as [|y l IH]; cbn [insert_by_count]; [done|].
  destruct (snd x <? snd y)%nat; [|done].
  rewrite IH. apply Permutation_swap.
Qed.

Lemma most_common_perm l : most_common l ≡ₚ l.
Proof.
  induction l as [|x l IH]; [done|]. unfold most_common. cbn [foldr].
  fold (most_common l). by rewrite insert_by_count_perm, IH.
Qed.

Lemma insert_by_count_sorted x l :
  StronglySorted (λ a b, (snd b ≤ snd a)%nat) l →
  StronglySorted (λ a b, (snd b ≤ snd a)%nat) (insert_by_count x l).
Proof.
  induction 1 as [|y l Hs IH Hall]; cbn [insert_by_count].
  - repeat constructor.
  - destruct (Nat.ltb_spec (snd x) (snd y)).
    + constructor; [done|].
      rewrite insert_by_count_perm. constructor; [lia|done].
    + constructor; [by constructor|]. constructor; [done|].
      eapply Forall_impl; [exact Hall|]. intros z Hz. simpl in Hz. lia.
Qed.

Lemma most_common_sorted l :
  StronglySorted (λ a b, (snd b ≤ snd a)%nat) (most_common l).
Proof.
  induction l as [|x l IH]; [constructor|].
  unfold most_common. cbn [foldr]. by apply insert_by_count_sorted.
Qed.
End CounterFacts.

Section PeriodFacts.
Context `{PyFloat}.
Implicit Types (vs : list (Voucher F)) (l : list (str * nat)) (m : gmap str F).

Local Abbreviation counted t vs := (length (filter (λ v, v_type v = t) vs)).
Local Abbreviation positive c := (match c with O => None | S _ => Some c end).

Lemma add_amount_not_neg t (amount : F) m :
  flt amount fzero = false →
  (∀ t', flt (default fzero (m !! t')) fzero = false) →
  ∀ t', flt (default fzero (add_amount t amount m !! t')) fzero = false.
Proof.
  intros Ha Hm t'. unfold add_amount. destruct (decide (t' = t)) as [->|Hne].
  - rewrite lookup_insert_eq. cbn [default from_option id]. by apply fadd_not_neg.
  - by rewrite lookup_insert_ne.
Qed.

Lemma tally_types_spec vs : ∀ done l m,
  NoDup l.*1 →
  (∀ t, (list_to_map l : gmap str nat) !! t = positive (counted t done)) →
  sum_list l.*2 = length done →
  (∀ t, flt (default fzero (m !! t)) fzero = false) →
  Forall (λ v, flt (v_amount v) fzero = false) vs →
  NoDup (tally_types vs l m).1.*1
  ∧ (∀ t, (list_to_map (tally_types vs l m).1 : gmap str nat) !! t
          = positive (counted t (done ++ vs)))
  ∧ sum_list (tally_types vs l m).1.*2 = length (done ++ vs)
  ∧ (∀ t, flt (default fzero ((tally_types vs l m).2 !! t)) fzero = false).
Proof.
  induction vs as [|v vs IH]; intros done l m Hnd Hl Hsum Hm Hvs.
  { rewrite app_nil_r. by split_and!. }
  inversion Hvs as [|? ? Hv Hvs']; subst. cbn [tally_types].
  replace (done ++ v :: vs) with ((done ++ [v]) ++ vs) by by rewrite <- app_assoc.
  apply IH; [by apply count_up_NoDup| |by rewrite count_up_sum, length_app, Hsum; simpl; lia
            |by apply add_amount_not_neg|done].
  intros t. rewrite count_up_lookup, filter_app, length_app, !Hl.
  rewrite filter_cons, filter_nil.
  destruct (decide (t = v_type v)) as [->|Hne].
  - rewrite decide_True by done. cbn [length].
    destruct (counted (v_type v) done); simpl; [done|].
    by rewrite Nat.add_1_r.
  - rewrite decide_False by done. cbn [length]. by rewrite Nat.add_0_r.
Qed.
End PeriodFacts.


(** X17. On a payload that parses, the formatter of
    [get_transactions_for_period] does not raise. Without vouchers it
    returns the fixed message; otherwise the text has the two header
    lines, one line for each voucher type, the line [First 15:], one line
    for each of the first fifteen vouchers and, when there are more, a
    last line with their number. The voucher types are listed once each,
    by falling count; the count shown for a type is the number of
    vouchers of that type, so the counts add up to the total; and no
    amount shown for a type is below zero. *)
Theorem period_summary_counts_every_voucher `{PyFloat}
    (fromstring : str → Res Element) (from_date to_date raw : str) (root : Element) :
  _parse_xml fromstring raw = Ok root →
  let vouchers := map voucher_of (iter root (py "VOUCHER")) in
  let n := length vouchers in
  (n = 0%nat →
     get_transactions_for_period_format fromstring from_date to_date raw
     = Ok (py "No transactions from " ++ from_date ++ py " to " ++ to_date ++ py "."))
  ∧ (n ≠ 0%nat →
     ∃ summary amounts,
       get_transactions_for_period_format fromstring from_date to_date raw
       = Ok (join nl
               ([py "Period: " ++ from_date ++ py " to " ++ to_date;
                 py "Total vouchers: " ++ str_of_Z (Z.of_nat n) ++ nl]
                ++ map (type_line amounts) summary
                ++ [nl ++ py "First 15:"]
                ++ map period_line (take 15 vouchers)
                ++ (if (15 <? n)%nat
                    then [py "  ... and " ++ str_of_Z (Z.of_nat (n - 15)) ++ py " more"]
                    else [])))
       ∧ NoDup summary.*1
       ∧ (∀ t c, (t, c) ∈ summary ↔
            c = length (filter (λ v, v_type v = t) vouchers) ∧ (0 < c)%nat)
       ∧ sum_list summary.*2 = n
       ∧ StronglySorted (λ a b, (snd b ≤ snd a)%nat) summary
       ∧ (∀ t, flt (default fzero (amounts !! t)) fzero = false)).
Proof.
  intros Hroot vouchers n. subst n.
  unfold get_transactions_for_period_format, _parse_vouchers.
  rewrite Hroot. cbn [mbind res_bind]. fold vouchers.
  split.
  { intros Hn. by destruct vouchers. }
  intros Hn.
  destruct (tally_types_spec vouchers [] [] ∅) as (Hnd & Hl & Hsum & Hm).
  { constructor. } { intros t. cbn [list_to_map foldr]. by rewrite lookup_empty. } { done. }
  { intros t. rewrite lookup_empty. apply flt_zero_zero. }
  { subst vouchers. apply Forall_fmap, list.Forall_forall. intros el _.
    apply extract_voucher_amount_not_neg. }
  rewrite app_nil_l in Hl, Hsum.
  destruct (tally_types vouchers [] ∅) as [by_type amounts] eqn:E.
  cbn [fst snd] in Hnd, Hl, Hsum, Hm.
  exists (most_common by_type), amounts. split_and!.
  - by destruct vouchers.
  - by rewrite most_common_perm.
  - intros t c. rewrite most_common_perm.
    rewrite (elem_of_list_to_map (M:=gmap str) by_type t c Hnd), Hl.
    destruct (length (filter _ vouchers)) as [|k].
    + split; [done|]. intros [-> ?]. lia.
    + split; [intros [= <-]; split; [done|lia]|by intros [-> _]].
  - by rewrite most_common_perm.
  - apply most_common_sorted.
  - done.
Qed.

Lemma period_summary_counts_every_voucher_witness :
  ∃ summary lines,
    get_transactions_for_period_format (H:=decimal_float) (λ _, Ok period_tree)
      (py "20250701") (py "20250703") (py "<ENVELOPE/>")
    = Ok (join nl lines)
    ∧ (py "Sales", 2%nat) ∈ summary
    ∧ (py "Payment", 1%nat) ∈ summary
    ∧ sum_list summary.*2 = 3%nat.
Proof.
  destruct (period_summary_counts_every_voucher (H:=decimal_float)
              (λ _, Ok period_tree) (py "20250701") (py "20250703")
              (py "<ENVELOPE/>") period_tree)
    as [_ Hsome]; [reflexivity|].
  destruct Hsome as (summary & amounts & Hfmt & _ & Hcount & Hsum & _).
  - vm_compute. discriminate.
  - exists summary. eexists. split_and!.
    + exact Hfmt.
    + apply Hcount. vm_compute. split; [reflexivity|lia].
    + apply Hcount. vm_compute. split; [reflexivity|lia].
    + etrans; [exact Hsum|]. vm_compute. reflexivity.
Defined.
